(** * The uploader of src/common/upload.ts

    A shallow embedding of the [Uploader] class: the direct upload
    ([transactionUploader]), the resumable chunked upload
    ([chunkedTransactionUploader]) and the bulk upload
    ([concurrentUploader]), followed by the properties of its
    specification.

    JavaScript numbers that count bytes, chunks and items are integers
    ([Z]).  The batch size of the chunked upload is only ever compared,
    with 1 and with the length of an array, and is kept as a number that
    need not be an integer ([Q]).

    An asynchronous computation is a function of the state of the
    remote service that yields how the promise settles, the next state and
    the events it caused.  Work that runs side by side (the chunk uploads
    of one window, the tasks of the pool) is laid out on one schedule of
    the event loop: the requests of one upload follow each other, and the
    uploads follow in the order in which they were started.  What is in
    flight is read off the admissions and the awaits, which every schedule
    shares. *)

From Stdlib Require Import ZArith QArith_base List String Bool Lia
  DecimalString.
Import ListNotations.
Local Open Scope string_scope.
Local Open Scope list_scope.
Local Open Scope Z_scope.

(** ** Data *)

(** A Node [Buffer]: a length and the bytes under it.  [slice] is a view
    on the same bytes, with its end clamped to the length. *)
Record Buffer : Type := mkBuffer {
  byteLength : Z;
  byteAt : Z -> Byte.byte
}.

Definition slice (b : Buffer) (start stop : Z) : Buffer :=
  let e := Z.min stop (byteLength b) in
  let s := Z.min (Z.max 0 start) e in
  {| byteLength := e - s; byteAt := fun i => byteAt b (s + i) |}.

(** A signed data item, as far as the uploader looks at it. *)
Record DataItem : Type := mkDataItem {
  id : string;
  getRaw : Buffer
}.

(** What [concurrentUploader] accepts: [DataItem | Buffer | string]. *)
Inductive Item : Type :=
| ItemData (d : DataItem)
| ItemBuffer (b : Buffer)
| ItemString (s : string).

(** The body of a response. *)
Inductive ResponseData : Type :=
| DataNone
| DataId (i : string)
| DataOffsets (present : list Z)
| DataText (s : string).

Record AxiosResponse : Type := mkResponse {
  status : Z;
  statusText : string;
  data : ResponseData
}.

(** [res.data = v]. *)
Definition setData (res : AxiosResponse) (v : ResponseData) : AxiosResponse :=
  {| status := status res; statusText := statusText res; data := v |}.

(** [x < y] on numbers that need not be integers; [x == y] on them is
    [Qeq_bool]. *)
Definition Qlt_bool (x y : Q) : bool := negb (Qle_bool y x).

(** A JavaScript [Error]. *)
Record Error : Type := mkError { message : string }.

Definition string_of_Z (z : Z) : string := NilZero.string_of_int (Z.to_int z).

(** The requests the uploader sends, all for the uploader's currency. *)
Inductive Request : Type :=
| GetChunkInfo (txid : string) (size : Z)
    (* GET /chunks/{currency}/{id}/{size} *)
| PostChunk (txid : string) (o : Z) (d : Buffer)
    (* POST /chunks/{currency}/{id}/{o} *)
| PostFinish (txid : string)
    (* POST /chunks/{currency}/{id}/-1 *)
| PostTx (raw : Buffer).
    (* POST {protocol}://{host}:{port}/tx/{currency} *)

(** What [api.get] and [api.post] do with a request: return a response,
    whatever its status, or throw. *)
Inductive Reply : Type :=
| Returns (res : AxiosResponse)
| Throws (e : Error).

(** What a run leaves behind. *)
Inductive Event : Type :=
| EvRequest (q : Request) (r : Reply)
    (* one call of [api.get] or [api.post] and what came back *)
| EvBackoff (ms : Z)
    (* the retry library waits before the next attempt: the delay before
       its random factor is applied *)
| EvAdmit (o : Z) (len : Z)
    (* [processing.push(promiseFactory(data, offset))] *)
| EvAwaitAll (n : nat) (settled : bool)
    (* [await Promise.all(processing)] over [n] promises, and whether all
       of them settled so that the wait came to an end *)
| EvPool (width : Z).
    (* [PromisePool.withConcurrency(width)] *)

(** How an awaited promise settles; [Pending] is the promise that never
    settles. *)
Inductive Outcome (A : Type) : Type :=
| Resolved (a : A)
| Rejected (e : Error)
| Pending.
Arguments Resolved {A} a.
Arguments Rejected {A} e.
Arguments Pending {A}.

(** A promise that has been created but is not awaited yet is identified
    with the way it settles. *)
Definition Promise (A : Type) : Type := Outcome A.

Inductive JsUndefined : Type := undefined.

(** ** Asynchronous computations *)

Module Async.

Definition t (St A : Type) : Type := St -> Outcome A * St * list Event.

Section Ops.
Context {St : Type}.

Definition ret {A} (a : A) : t St A := fun s => (Resolved a, s, []).

Definition throw {A} (e : Error) : t St A := fun s => (Rejected e, s, []).

Definition emit (ev : Event) : t St unit := fun s => (Resolved tt, s, [ev]).

Definition bind {A B} (m : t St A) (f : A -> t St B) : t St B :=
  fun s =>
    match m s with
    | (Resolved a, s1, l1) =>
        match f a s1 with (o, s2, l2) => (o, s2, l1 ++ l2) end
    | (Rejected e, s1, l1) => (Rejected e, s1, l1)
    | (Pending, s1, l1) => (Pending, s1, l1)
    end.

(** [try { m } catch (e) { h e }] *)
Definition tryCatch {A} (m : t St A) (h : Error -> t St A) : t St A :=
  fun s =>
    match m s with
    | (Rejected e, s1, l1) =>
        match h e s1 with (o, s2, l2) => (o, s2, l1 ++ l2) end
    | r => r
    end.

(** Calling an async function without awaiting it: the work is done and
    the promise is kept for later. *)
Definition spawn {A} (m : t St A) : t St (Promise A) :=
  fun s => match m s with (o, s1, l1) => (Resolved o, s1, l1) end.

(** The first rejection among promises, if any. *)
Fixpoint firstRejected {A} (ps : list (Promise A)) : option Error :=
  match ps with
  | [] => None
  | Rejected e :: _ => Some e
  | _ :: rest => firstRejected rest
  end.

Fixpoint allResolved {A} (ps : list (Promise A)) : option (list A) :=
  match ps with
  | [] => Some []
  | Resolved a :: rest =>
      match allResolved rest with
      | Some l => Some (a :: l)
      | None => None
      end
  | _ :: _ => None
  end.

(** [await Promise.all(ps)]: rejects when one of them rejects, resolves
    when all have resolved, and otherwise never settles. *)
Definition awaitAll {A} (ps : list (Promise A)) : t St (list A) :=
  fun s =>
    match firstRejected ps with
    | Some e => (Rejected e, s, [EvAwaitAll (List.length ps) false])
    | None =>
        match allResolved ps with
        | Some l => (Resolved l, s, [EvAwaitAll (List.length ps) true])
        | None => (Pending, s, [EvAwaitAll (List.length ps) false])
        end
    end.

Definition outcome {A} (r : Outcome A * St * list Event) : Outcome A :=
  fst (fst r).
Definition final {A} (r : Outcome A * St * list Event) : St :=
  snd (fst r).
Definition events {A} (r : Outcome A * St * list Event) : list Event :=
  snd r.
End Ops.

End Async.

Notation "x <- m ;; k" := (Async.bind m (fun x => k))
  (at level 61, m at next level, right associativity).
Notation "m ;;; k" := (Async.bind m (fun _ => k))
  (at level 61, right associativity).

(** ** The retry library

    [retry(fn, opts)] of the package async-retry, which drives node-retry:
    [fn] is attempted once and then up to [retries] more times, each time
    it throws; attempts are numbered from 1.  When [fn] calls [bail(e)]
    the promise of [retry] is rejected with [e], and the run of [retry]
    is followed up to there: what the library still does once its promise
    has settled (it goes on with the attempts that are left when [fn]
    throws after [bail]) is not part of the run.
    When the retries are used up the promise is rejected with the main
    error of the attempts.  Options that are not given take the library's
    defaults: 10 retries, factor 2, first delay 1000 ms, no upper bound on
    the delay. *)

Record RetryOptions : Type := mkRetryOptions {
  retries : nat;
  minTimeout : Z;
  maxTimeout : option Z          (* [None] is [Infinity] *)
}.

Definition retryDefaults : RetryOptions :=
  {| retries := 10; minTimeout := 1000; maxTimeout := None |}.

(** The delay after the failure of attempt [k + 1], before the random
    factor in [1, 2) that the library multiplies in ahead of the clamp. *)
Definition timeoutOf (opts : RetryOptions) (k : nat) : Z :=
  let t := Z.max (minTimeout opts) 1 * 2 ^ Z.of_nat k in
  match maxTimeout opts with
  | Some m => Z.min t m
  | None => t
  end.

(** How one call of [fn] ends: it returns, it throws, or it calls
    [bail(e)] and then throws. *)
Inductive Attempt (A : Type) : Type :=
| Returned (a : A)
| Threw (e : Error)
| BailedThenThrew (e : Error).
Arguments Returned {A} a.
Arguments Threw {A} e.
Arguments BailedThenThrew {A} e.

Fixpoint countMessage (m : string) (errs : list Error) : nat :=
  match errs with
  | [] => O
  | e :: rest =>
      if String.eqb (message e) m then S (countMessage m rest)
      else countMessage m rest
  end.

(** [RetryOperation.mainError]: the error whose message was seen most
    often, the later one on a tie. *)
Fixpoint mainErrorFrom (seen todo : list Error) (best : Error) (bestCount : nat)
  : Error :=
  match todo with
  | [] => best
  | e :: rest =>
      let count := S (countMessage (message e) seen) in
      if Nat.leb bestCount count
      then mainErrorFrom (seen ++ [e]) rest e count
      else mainErrorFrom (seen ++ [e]) rest best bestCount
  end.

Definition mainError (errs : list Error) (dflt : Error) : Error :=
  mainErrorFrom [] errs dflt O.

Section Retry.
Context {St A : Type}.

Fixpoint retryLoop (opts : RetryOptions) (left : nat) (num : nat)
    (errors : list Error) (fn : nat -> Async.t St (Attempt A))
  : Async.t St A :=
  a <- fn num ;;
  match a with
  | Returned x => Async.ret x
  | BailedThenThrew e => Async.throw e
  | Threw e =>
      match left with
      | O => Async.throw (mainError (errors ++ [e]) e)
      | S left' =>
          Async.emit (EvBackoff (timeoutOf opts (Nat.pred num))) ;;;
          retryLoop opts left' (S num) (errors ++ [e]) fn
      end
  end.

Definition retry (fn : nat -> Async.t St (Attempt A))
    (opts : option RetryOptions) : Async.t St A :=
  let o := match opts with Some o => o | None => retryDefaults end in
  retryLoop o (retries o) 1%nat [] fn.

(** [new Promise((r) => { ... })] around work that calls [r] when it
    succeeds and that nothing connects to the promise otherwise. *)
Definition newPromiseResolveOnly (work : Async.t St A) : Async.t St A :=
  fun s =>
    match work s with
    | (Resolved x, s1, l) => (Resolved x, s1, l)
    | (Rejected _, s1, l) => (Pending, s1, l)
    | (Pending, s1, l) => (Pending, s1, l)
    end.
End Retry.

(** ** Collaborators of the uploader that are not among the sources *)

Definition notEnoughFunds : string := "Not enough funds to send data".

Definition isNotEnoughFunds (e : Error) : bool :=
  String.eqb (message e) notEnoughFunds.

(** [arr.includes(x)] on numbers. *)
Definition includes (arr : list Z) (x : Z) : bool := existsb (Z.eqb x) arr.

(** Modelled from the spec: [Utils.checkAndThrow] (common/utils is not
    among the sources).  The spec lets the presence query pass on status
    200 and the final call on its listed success status, and turns any
    other status into a failure that carries the context, the status and
    the status text. *)
Definition checkAndThrow (res : AxiosResponse) (context : string)
    (exceptions : list Z) : option Error :=
  if (status res =? 200) || includes exceptions (status res) then None
  else Some {| message :=
      ("HTTP Error: " ++ context ++ ": " ++ string_of_Z (status res) ++ " "
         ++ statusText res)%string |}.

Record Chunk : Type := mkChunk {
  chunkId : Z;
  chunkData : Buffer
}.

(** Modelled from the spec: how many chunks the [chunker] yields for a
    source of [size] bytes (common/chunker is not among the sources): as
    many full chunks as fit, and one more for what is left. *)
Definition chunkCount (chunkSize size : Z) : nat :=
  Z.to_nat ((size + chunkSize - 1) / chunkSize).

(** Modelled from the spec: the [chunker] transform with [flushTail] read
    through the [S2A] iterator (common/chunker and common/s2ai are not
    among the sources).  The spec's ChunkSplitter yields the source once,
    in order, in pieces of [chunkSize] bytes, the last one shortened to
    what is left.  A [Readable] source is taken by its whole content. *)
Definition chunker (chunkSize : Z) (src : Buffer) : list Chunk :=
  map (fun k : nat =>
         let start := Z.of_nat k * chunkSize in
         {| chunkId := Z.of_nat k;
            chunkData := slice src start (start + chunkSize) |})
      (seq 0 (chunkCount chunkSize (byteLength src))).

(** The offsets the loop over [i < chunks + 1] pushes to [missing]. *)
Fixpoint missingFrom (n : nat) (i : Z) (chunkSize : Z) (present : list Z)
  : list Z :=
  match n with
  | O => []
  | S n' =>
      let s := i * chunkSize in
      if negb (includes present s)
      then s :: missingFrom n' (i + 1) chunkSize present
      else missingFrom n' (i + 1) chunkSize present
  end.

Definition missingOffsets (size chunkSize : Z) (present : list Z) : list Z :=
  let remainder := Z.rem size chunkSize in
  let chunks := Z.quot (size - remainder) chunkSize in
  missingFrom (Z.to_nat (chunks + 1)) 0 chunkSize present.

(** [i % concurrency == 0]; the remainder by zero is [NaN], which equals
    nothing. *)
Definition remIsZero (i concurrency : Z) : bool :=
  if concurrency =? 0 then false else Z.rem i concurrency =? 0.

(** What the retried function of [concurrentUploader] returns. *)
Record Processed : Type := mkProcessed {
  pItem : Item;
  pRes : AxiosResponse;
  pIndex : Z
}.

Record BatchResult : Type := mkBatchResult {
  errors : list Error;
  results : list JsUndefined
}.

(** ** The uploader *)

Section Uploader.
(** The remote service behind [this.api] ([Api] is not among the
    sources): a state and what each request does to it. *)
Variable St : Type.
Variable api : Request -> St -> Reply * St.
(** The field set through [useChunking]. *)
Variable forceUseChunking : bool.
(** [createData] followed by [sign] with the currency's signer, and
    [Buffer.from]. *)
Variable createData : Buffer -> DataItem.
Variable bufferFrom : string -> Buffer.
(** What the caller's callbacks resolve to. *)
Variable Any : Type.

Definition apiCall (q : Request) : Async.t St AxiosResponse :=
  fun s =>
    match api q s with
    | (Returns res, s1) => (Resolved res, s1, [EvRequest q (Returns res)])
    | (Throws e, s1) => (Rejected e, s1, [EvRequest q (Throws e)])
    end.

(** How a call of the function handed to [retry] ends; [bailOn] is the
    test under which its [catch] block calls [bail] before it throws
    again. *)
Definition attempt {A} (body : Async.t St A) (bailOn : Error -> bool)
  : Async.t St (Attempt A) :=
  fun s =>
    match body s with
    | (Resolved a, s1, l) => (Resolved (Returned a), s1, l)
    | (Rejected e, s1, l) =>
        (Resolved (if bailOn e then BailedThenThrew e else Threw e), s1, l)
    | (Pending, s1, l) => (Pending, s1, l)
    end.

(** [promiseFactory(d, o)].  The options object stands after the call of
    [retry], as the right operand of a comma, and not among its
    arguments. *)
Definition promiseFactory (txid : string) (d : Buffer) (o : Z)
  : Async.t St (Z * AxiosResponse) :=
  newPromiseResolveOnly
    (let _ := {| retries := 3; minTimeout := 1000;
                 maxTimeout := Some 10000 |} in
     retry (fun _ =>
              attempt (re <- apiCall (PostChunk txid o d) ;;
                       Async.ret (o, re))
                      (fun _ => false))
           None).

(** The [for await] loop over the chunks; its state is [offset] and
    [processing].  [processing.length == batchSize] compares the length
    with a number that need not be an integer. *)
Fixpoint uploadLoop (txid : string) (batchSize : Q) (missing : list Z)
    (cnks : list Chunk) (offset : Z)
    (processing : list (Promise (Z * AxiosResponse)))
  : Async.t St (list (Promise (Z * AxiosResponse))) :=
  match cnks with
  | [] => Async.ret processing
  | chunk :: rest =>
      let d := chunkData chunk in
      processing1 <-
        (if Qeq_bool (inject_Z (Z.of_nat (List.length processing)))
                     batchSize
         then Async.awaitAll processing ;;; Async.ret []
         else Async.ret processing) ;;
      processing2 <-
        (if includes missing offset
         then Async.emit (EvAdmit offset (byteLength d)) ;;;
              p <- Async.spawn (promiseFactory txid d offset) ;;
              Async.ret (processing1 ++ [p])
         else Async.ret processing1) ;;
      uploadLoop txid batchSize missing rest (offset + byteLength d)
                 processing2
  end.

Definition chunkedTransactionUploader (dataStream : Buffer) (txid : string)
    (size chunkSize : Z) (batchSize : Q) : Async.t St AxiosResponse :=
  if (chunkSize <? 1000000) || (190000000 <? chunkSize) then
    Async.throw {| message :=
      "Invalid chunk size - must be betweem 100,000 and 190,000,000 bytes" |}
  else if Qlt_bool batchSize 1 then
    Async.throw {| message := "batch size too small! must be >=1" |}
  else
    getres <- apiCall (GetChunkInfo txid size) ;;
    if status getres =? 201 then Async.ret (setData getres (DataId txid))
    else
      match checkAndThrow getres "Getting chunk info" [] with
      | Some e => Async.throw e
      | None =>
          match data getres with
          | DataOffsets present =>
              let missing := missingOffsets size chunkSize present in
              processing <-
                uploadLoop txid batchSize missing
                           (chunker chunkSize dataStream) 0 [] ;;
              Async.awaitAll processing ;;;
              finishUpload <- apiCall (PostFinish txid) ;;
              if status finishUpload =? 402 then
                Async.throw {| message := notEnoughFunds |}
              else
                match checkAndThrow finishUpload "Finalising upload" [201]
                with
                | Some e => Async.throw e
                | None => Async.ret finishUpload
                end
          | _ =>
              Async.throw {| message := "getres.data.map is not a function" |}
          end
      end.

Definition transactionUploader (transaction : DataItem)
  : Async.t St AxiosResponse :=
  let length := byteLength (getRaw transaction) in
  res <-
    (if forceUseChunking || (50000000 <? length)
     then chunkedTransactionUploader (getRaw transaction) (id transaction)
            length 25000000 5
     else apiCall (PostTx (getRaw transaction))) ;;
  if status res =? 201 then
    Async.ret (setData res (DataId (id transaction)))
  else if status res =? 402 then
    Async.throw {| message := notEnoughFunds |}
  else if 400 <=? status res then
    Async.throw {| message :=
      ("whilst uploading DataItem: " ++ string_of_Z (status res) ++ " "
         ++ statusText res)%string |}
  else Async.ret res.

Definition processItem (item : Item) : Async.t St AxiosResponse :=
  match item with
  | ItemString s => transactionUploader (createData (bufferFrom s))
  | ItemBuffer b => transactionUploader (createData b)
  | ItemData d => transactionUploader d
  end.

(** Calling [logFunction], which is [undefined] when the argument was
    left out. *)
Definition callLogFunction (logFunction : option (string -> Async.t St Any))
    (log : string) : Async.t St Any :=
  match logFunction with
  | Some f => f log
  | None => Async.throw {| message := "logFunction is not a function" |}
  end.

(** The function handed to [retry] by the task: the upload, the progress
    log and the result processor inside [try], and the [catch] block that
    bails on the insufficient-funds message before it throws again. *)
Definition processAttempt (concurrency : Z)
    (resultProcessor : option (Processed -> Async.t St Any))
    (logFunction : option (string -> Async.t St Any))
    (item : Item) (i : Z) : Async.t St (Attempt (Processed + Any)) :=
  attempt
    (res <- processItem item ;;
     (if remIsZero i concurrency
      then callLogFunction logFunction
             ("Processed " ++ string_of_Z i ++ " Items")%string ;;;
           Async.ret tt
      else Async.ret tt) ;;;
     match resultProcessor with
     | Some rp =>
         v <- rp {| pItem := item; pRes := res; pIndex := i |} ;;
         Async.ret (inr v)
     | None =>
         Async.ret (inl {| pItem := item; pRes := res; pIndex := i |})
     end)
    isNotEnoughFunds.

(** The function given to [process]: it awaits the retried upload and
    returns nothing. *)
Definition processTask (concurrency : Z)
    (resultProcessor : option (Processed -> Async.t St Any))
    (logFunction : option (string -> Async.t St Any))
    (item : Item) (i : Z) : Async.t St JsUndefined :=
  retry (fun _ =>
           processAttempt concurrency resultProcessor logFunction item i)
        (Some {| retries := 3; minTimeout := 1000;
                 maxTimeout := Some 10000 |}) ;;;
  Async.ret undefined.

(** The error handler given to the pool. *)
Definition handleError (error : Error) (errs : list Error)
  : Async.t St (list Error) :=
  let errs1 := errs ++ [error] in
  if isNotEnoughFunds error then Async.throw error
  else Async.ret errs1.

(** The promise pool, on the schedule that runs the tasks one after the
    other in the order of dispatch.  A task that resolves adds its value
    to the results; a task that rejects goes to the error handler, and
    the pool rejects when the handler throws. *)
Fixpoint poolProcess (task : Item -> Z -> Async.t St JsUndefined)
    (items : list Item) (i : Z) (errs : list Error)
    (res : list JsUndefined) : Async.t St (list Error * list JsUndefined) :=
  match items with
  | [] => Async.ret (errs, res)
  | item :: rest =>
      st <- Async.tryCatch
              (v <- task item i ;; Async.ret (errs, res ++ [v]))
              (fun error =>
                 errs1 <- handleError error errs ;; Async.ret (errs1, res)) ;;
      poolProcess task rest (i + 1) (fst st) (snd st)
  end.

Definition concurrentUploader (data : list Item) (concurrency : Z)
    (resultProcessor : option (Processed -> Async.t St Any))
    (logFunction : option (string -> Async.t St Any))
  : Async.t St BatchResult :=
  Async.emit (EvPool (if 1 <=? concurrency then concurrency else 5)) ;;;
  r <- poolProcess (processTask concurrency resultProcessor logFunction)
                   data 0 [] [] ;;
  Async.ret {| errors := fst r; results := snd r |}.
End Uploader.

(** ** Reading a run *)

(** Chunk uploads that are admitted and not yet awaited, after [log],
    starting from [count].  An upload is in flight from its admission
    until its promise settles, which is at the latest when the
    [Promise.all] over it comes to an end; so this bounds the uploads in
    flight on every schedule. *)
Fixpoint inFlightFrom (count : nat) (log : list Event) : nat :=
  match log with
  | [] => count
  | EvAdmit _ _ :: rest => inFlightFrom (S count) rest
  | EvAwaitAll _ settled :: rest =>
      inFlightFrom (if settled then O else count) rest
  | _ :: rest => inFlightFrom count rest
  end.

Definition inFlight (log : list Event) : nat := inFlightFrom O log.

(** Every admission finds fewer than [b] uploads in flight and every
    [Promise.all] awaits all of them. *)
Fixpoint windowedFrom (b : Z) (count : nat) (log : list Event) : bool :=
  match log with
  | [] => true
  | EvAdmit _ _ :: rest =>
      (Z.of_nat count <? b) && windowedFrom b (S count) rest
  | EvAwaitAll n settled :: rest =>
      Nat.eqb n count && windowedFrom b (if settled then O else count) rest
  | _ :: rest => windowedFrom b count rest
  end.

Definition isControl (ev : Event) : bool :=
  match ev with
  | EvAdmit _ _ | EvAwaitAll _ _ => true
  | _ => false
  end.

(** The chunk uploads submitted: offset and length, in order. *)
Fixpoint admitted (log : list Event) : list (Z * Z) :=
  match log with
  | [] => []
  | EvAdmit o len :: rest => (o, len) :: admitted rest
  | _ :: rest => admitted rest
  end.

(** The calls of [api.post] for the chunk at offset [o]. *)
Fixpoint chunkAttempts (o : Z) (log : list Event) : nat :=
  match log with
  | [] => O
  | EvRequest (PostChunk _ o' _) _ :: rest =>
      if o' =? o then S (chunkAttempts o rest) else chunkAttempts o rest
  | _ :: rest => chunkAttempts o rest
  end.

Fixpoint backoffs (log : list Event) : list Z :=
  match log with
  | [] => []
  | EvBackoff ms :: rest => ms :: backoffs rest
  | _ :: rest => backoffs rest
  end.


Definition isDirectPost (ev : Event) : bool :=
  match ev with
  | EvRequest (PostTx _) _ => true
  | _ => false
  end.

(** The requests of a run, by kind, with the status that came back
    ([None] when the call threw). *)
Inductive Wire : Type :=
| WGet (size : Z) (st : option Z)
| WChunk (o len : Z) (st : option Z)
| WFinish (st : option Z)
| WTx (len : Z) (st : option Z).

Definition replyStatus (r : Reply) : option Z :=
  match r with
  | Returns res => Some (status res)
  | Throws _ => None
  end.

Fixpoint wire (log : list Event) : list Wire :=
  match log with
  | [] => []
  | EvRequest q r :: rest =>
      match q with
      | GetChunkInfo _ size => WGet size (replyStatus r)
      | PostChunk _ o d => WChunk o (byteLength d) (replyStatus r)
      | PostFinish _ => WFinish (replyStatus r)
      | PostTx raw => WTx (byteLength raw) (replyStatus r)
      end :: wire rest
  | _ :: rest => wire rest
  end.

(** [Emits P m]: whatever the state, [m] causes only events in [P]. *)
Definition Emits {St A} (P : Event -> Prop) (m : Async.t St A) : Prop :=
  forall s, Forall P (Async.events (m s)).

(** [Keeps b c m Q]: started with [c] uploads in flight, [m] keeps the
    window of width [b], and when it resolves with [a] and [c'] uploads in
    flight, [Q a c'] holds. *)
Definition Keeps {St A} (b : Z) (c : nat) (m : Async.t St A)
    (Q : A -> nat -> Prop) : Prop :=
  forall s,
    windowedFrom b c (Async.events (m s)) = true
    /\ match Async.outcome (m s) with
       | Resolved a => Q a (inFlightFrom c (Async.events (m s)))
       | _ => True
       end.

(** [Post m Q]: whatever the state, the way [m] settles and the events it
    causes satisfy [Q]. *)
Definition Post {St A} (m : Async.t St A)
    (Q : Outcome A -> list Event -> Prop) : Prop :=
  forall s, Q (Async.outcome (m s)) (Async.events (m s)).

(** The service answers the chunk upload of item [txid] at offset [o]. *)
Definition isAnswer (txid : string) (o : Z) (ev : Event) : bool :=
  match ev with
  | EvRequest (PostChunk t o' _) (Returns _) => String.eqb t txid && (o' =? o)
  | _ => false
  end.

(** The chunk uploads of item [txid] that are admitted and not answered,
    by offset: an admission adds one and an answer takes it away. *)
Definition unansweredStep (txid : string) (waiting : list Z) (ev : Event)
  : list Z :=
  match ev with
  | EvAdmit o _ => o :: waiting
  | _ => filter (fun o => negb (isAnswer txid o ev)) waiting
  end.

Fixpoint unansweredFrom (txid : string) (waiting : list Z) (log : list Event)
  : list Z :=
  match log with
  | [] => waiting
  | ev :: rest => unansweredFrom txid (unansweredStep txid waiting ev) rest
  end.

(** Every [Promise.all] that comes to an end finds every admitted upload
    answered. *)
Fixpoint settledFrom (txid : string) (waiting : list Z) (log : list Event)
  : bool :=
  match log with
  | [] => true
  | ev :: rest =>
      match ev, waiting with
      | EvAwaitAll _ true, _ :: _ => false
      | _, _ => settledFrom txid (unansweredStep txid waiting ev) rest
      end
  end.

(** Neither an admission, nor the end of a [Promise.all], nor an answer
    to a chunk upload. *)
Definition isPassive (ev : Event) : bool :=
  match ev with
  | EvAdmit _ _ | EvAwaitAll _ true
  | EvRequest (PostChunk _ _ _) (Returns _) => false
  | _ => true
  end.

(** [Settles txid w m Q]: started with the uploads [w] unanswered, [m]
    ends a [Promise.all] only when none is unanswered, and when it
    resolves with [a] and the uploads [w'] unanswered, [Q a w'] holds. *)
Definition Settles {St A} (txid : string) (w : list Z) (m : Async.t St A)
    (Q : A -> list Z -> Prop) : Prop :=
  forall s,
    settledFrom txid w (Async.events (m s)) = true
    /\ match Async.outcome (m s) with
       | Resolved a => Q a (unansweredFrom txid w (Async.events (m s)))
       | _ => True
       end.



(** What the items of a batch came to, one entry per item: the error a
    task was rejected with, or [None] for a task that resolved. *)
Fixpoint errorsOf (per : list (option Error)) : list Error :=
  match per with
  | [] => []
  | Some e :: rest => e :: errorsOf rest
  | None :: rest => errorsOf rest
  end.

Fixpoint resultsOf (per : list (option Error)) : list JsUndefined :=
  match per with
  | [] => []
  | Some _ :: rest => resultsOf rest
  | None :: rest => undefined :: resultsOf rest
  end.

(** ** Services and inputs used as instances *)

Definition zeros (n : Z) : Buffer :=
  {| byteLength := n; byteAt := fun _ => Byte.x00 |}.

Definition respond (st : Z) (text : string) (d : ResponseData) : Reply :=
  Returns {| status := st; statusText := text; data := d |}.

(** Nothing stored yet, and every upload is accepted. *)
Definition healthyService (q : Request) (s : unit) : Reply * unit :=
  match q with
  | GetChunkInfo _ _ => (respond 200 "OK" (DataOffsets []), s)
  | PostChunk _ _ _ => (respond 200 "OK" DataNone, s)
  | PostFinish _ => (respond 201 "Created" DataNone, s)
  | PostTx _ => (respond 201 "Created" DataNone, s)
  end.

(** An account without balance: every upload is answered 402. *)
Definition brokeService (q : Request) (s : unit) : Reply * unit :=
  match q with
  | GetChunkInfo _ _ => (respond 200 "OK" (DataOffsets []), s)
  | _ => (respond 402 "Payment Required" DataNone, s)
  end.

(** The connection drops on every chunk upload. *)
Definition downService (q : Request) (s : unit) : Reply * unit :=
  match q with
  | GetChunkInfo _ _ => (respond 200 "OK" (DataOffsets []), s)
  | PostChunk _ _ _ => (Throws {| message := "socket hang up" |}, s)
  | PostFinish _ => (respond 201 "Created" DataNone, s)
  | PostTx _ => (respond 201 "Created" DataNone, s)
  end.


Definition signAs (name : string) (b : Buffer) : DataItem :=
  {| id := name; getRaw := b |}.

(** [Buffer.from] on a string of one-byte characters. *)
Definition bufferOfString (s : string) : Buffer :=
  {| byteLength := Z.of_nat (String.length s);
     byteAt := fun i =>
       match String.get (Z.to_nat i) s with
       | Some a => Ascii.byte_of_ascii a
       | None => Byte.x00
       end |}.

(** The chunk at offset 0 is answered 402 and everything else is
    accepted. *)
Definition unpaidChunkService (q : Request) (s : unit) : Reply * unit :=
  match q with
  | GetChunkInfo _ _ => (respond 200 "OK" (DataOffsets []), s)
  | PostChunk _ o _ =>
      if o =? 0 then (respond 402 "Payment Required" DataNone, s)
      else (respond 200 "OK" DataNone, s)
  | PostFinish _ => (respond 201 "Created" DataNone, s)
  | PostTx _ => (respond 201 "Created" DataNone, s)
  end.

(** Two chunks of 1,000,000 bytes, batch size 5. *)
Definition twoChunks (service : Request -> unit -> Reply * unit)
  : Outcome AxiosResponse * unit * list Event :=
  chunkedTransactionUploader unit service (zeros 2000000) "tx" 2000000
    1000000 5 tt.

(** One chunk of 1,000,000 bytes while the connection drops. *)
Definition downRun : Outcome AxiosResponse * unit * list Event :=
  chunkedTransactionUploader unit downService (zeros 1000000) "tx" 1000000
    1000000 5 tt.

(** A batch of one item of 60,000,000 bytes, with a progress callback,
    while the connection drops on chunk uploads. *)
Definition downBatch : Outcome BatchResult * unit * list Event :=
  concurrentUploader unit downService false (signAs "tx") bufferOfString unit
    [ItemData (signAs "tx" (zeros 60000000))] 5 None
    (Some (fun _ => Async.ret tt)) tt.

(** 2,500,000 bytes in chunks of 1,000,000 with batch size 2. *)
Definition threeChunks (service : Request -> unit -> Reply * unit)
  : Outcome AxiosResponse * unit * list Event :=
  chunkedTransactionUploader unit service (zeros 2500000) "tx" 2500000
    1000000 2 tt.

(** Four chunks of 1,000,000 bytes on a service that accepts them. *)
Definition fourChunks (batchSize : Q)
  : Outcome AxiosResponse * unit * list Event :=
  chunkedTransactionUploader unit healthyService (zeros 4000000) "tx" 4000000
    1000000 batchSize tt.

(** Three short items and no callbacks. *)
Definition smallBatch (concurrency : Z)
  : Outcome BatchResult * unit * list Event :=
  concurrentUploader unit healthyService false (signAs "tx") bufferOfString
    unit [ItemString "a"; ItemString "b"; ItemString "c"] concurrency None
    None tt.

(** ** The manifest of [generateManifest] *)

(** A [Map<string, string>]: its entries in the order of insertion; a
    [Map] holds each key once. *)
Definition JsMap : Type := list (string * string).

(** [items.get(k)] and [items.has(k)]. *)
Fixpoint mapGet (k : string) (items : JsMap) : option string :=
  match items with
  | [] => None
  | (k', v) :: rest => if String.eqb k' k then Some v else mapGet k rest
  end.

Definition mapHas (k : string) (items : JsMap) : bool :=
  match mapGet k items with
  | Some _ => true
  | None => false
  end.

(** An object literal used as a dictionary: its own properties, read by
    key, and the prototype once an assignment has replaced it. *)
Record JsObject (V : Type) : Type := mkJsObject {
  own : list (string * V);
  proto : option V
}.
Arguments own {V} _.
Arguments proto {V} _.

Fixpoint getOwn {V} (k : string) (props : list (string * V)) : option V :=
  match props with
  | [] => None
  | (k', v) :: rest => if String.eqb k' k then Some v else getOwn k rest
  end.

Fixpoint setOwn {V} (k : string) (v : V) (props : list (string * V))
  : list (string * V) :=
  match props with
  | [] => [(k, v)]
  | (k', v') :: rest =>
      if String.eqb k' k then (k, v) :: rest else (k', v') :: setOwn k v rest
  end.

(** [o[k] = v] for an object value [v].  The key [__proto__] reaches the
    setter that [Object.prototype] has under that name, which replaces the
    prototype of [o] and adds no property. *)
Definition setProp {V} (o : JsObject V) (k : string) (v : V) : JsObject V :=
  if String.eqb k "__proto__"
  then {| own := own o; proto := Some v |}
  else {| own := setOwn k v (own o); proto := proto o |}.

Record PathEntry : Type := mkPathEntry { pathId : string }.   (* [{ id: v }] *)
Record IndexEntry : Type := mkIndexEntry { path : string }.   (* [{ path: f }] *)

Record Manifest : Type := mkManifest {
  manifest : string;
  version : string;
  paths : JsObject PathEntry;
  index : option IndexEntry
}.

(** [if (s)] on an optional string: [undefined] and the empty string are
    falsy. *)
Definition truthyString (s : option string) : bool :=
  match s with
  | Some s => negb (String.eqb s "")
  | None => false
  end.

(** The [for ... of items.entries()] loop of [generateManifest]. *)
Fixpoint fillPaths (entries : JsMap) (o : JsObject PathEntry)
  : JsObject PathEntry :=
  match entries with
  | [] => o
  | (k, v) :: rest => fillPaths rest (setProp o k {| pathId := v |})
  end.

(** [generateManifest({ items, indexFile })]; the function is [async] and
    awaits nothing, so its promise is settled when it returns. *)
Definition generateManifest (items : JsMap) (indexFile : option string)
  : Outcome Manifest :=
  let fresh := {| own := []; proto := None |} in
  match indexFile with
  | Some f =>
      if truthyString (Some f) then
        if negb (mapHas f items) then
          Rejected {| message := ("Unable to access item: " ++ f)%string |}
        else
          Resolved {| manifest := "arweave/paths"; version := "0.1.0";
                      paths := fillPaths items fresh;
                      index := Some {| path := f |} |}
      else
        Resolved {| manifest := "arweave/paths"; version := "0.1.0";
                    paths := fillPaths items fresh; index := None |}
  | None =>
      Resolved {| manifest := "arweave/paths"; version := "0.1.0";
                  paths := fillPaths items fresh; index := None |}
  end.

(** ** The fields of the uploader and its setters *)

(** A value handed to a setter at run time. *)
Inductive JsValue : Type :=
| JsBoolean (b : bool)
| JsNumber (n : Z)
| JsString (s : string)
| JsNull
| JsUndefinedValue.

Record UploaderFields : Type := mkUploaderFields {
  forceUseChunking : option bool;       (* not set by the constructor *)
  contentTypeOverride : option string
}.

(** The fields after [new Uploader(...)]. *)
Definition newUploaderFields : UploaderFields :=
  {| forceUseChunking := None; contentTypeOverride := None |}.

(** [set useChunking(state)]. *)
Definition setUseChunking (state : JsValue) (u : UploaderFields)
  : UploaderFields :=
  match state with
  | JsBoolean b =>
      {| forceUseChunking := Some b;
         contentTypeOverride := contentTypeOverride u |}
  | _ => u
  end.

(** [set contentType(type)]. *)
Definition setContentType (type : string) (u : UploaderFields)
  : UploaderFields :=
  {| forceUseChunking := forceUseChunking u;
     contentTypeOverride := Some type |}.

(** [this.forceUseChunking] as a condition. *)
Definition forced (u : UploaderFields) : bool :=
  match forceUseChunking u with
  | Some b => b
  | None => false
  end.

(** [transactionUploader] of an uploader with the fields [u]. *)
Definition uploaderTransactionUploader {St : Type}
    (api : Request -> St -> Reply * St) (u : UploaderFields)
    (transaction : DataItem) : Async.t St AxiosResponse :=
  transactionUploader St api (forced u) transaction.

(** ** The Algorand currency of node/currencies/algorand.ts *)

(** [s.slice(0, n)] and [s.slice(n)] on a string taken as its sequence of
    code units. *)
Fixpoint sliceTo (n : nat) (s : string) : string :=
  match n, s with
  | O, _ => EmptyString
  | S _, EmptyString => EmptyString
  | S n', String c rest => String c (sliceTo n' rest)
  end.

Fixpoint sliceFrom (n : nat) (s : string) : string :=
  match n, s with
  | O, _ => s
  | S _, EmptyString => EmptyString
  | S n', String _ rest => sliceFrom n' rest
  end.

(** The fields of [AlgorandConfig] that its methods read; the key pair is
    left to the algosdk. *)
Record AlgorandConfig : Type := mkAlgorandConfig {
  providerUrl : string;
  base : string * Z;
  minConfirm : Z;
  apiURL : string;
  indexerURL : string
}.

(** The constructor: [Object.assign(this, config)] over the defaults of
    the base class, then the fields of the subclass.  [configMinConfirm]
    is [config.minConfirm] when the configuration has one. *)
Definition newAlgorandConfig (configProviderUrl : string)
    (configMinConfirm : option Z) : AlgorandConfig :=
  {| providerUrl := configProviderUrl;
     base := ("microAlgos", 1000000);
     minConfirm := match configMinConfirm with Some m => m | None => 5 end;
     apiURL :=
       (sliceTo 8 configProviderUrl ++ "node." ++ sliceFrom 8 configProviderUrl)%string;
     indexerURL :=
       (sliceTo 8 configProviderUrl ++ "algoindexer."
          ++ sliceFrom 8 configProviderUrl)%string |}.

(** A [BigNumber] made from a JSON number: [None] is [NaN], which is what
    [new BigNumber(undefined)] gives. *)
Definition BigNumber : Type := option Z.

(** The body of a response of the node or the indexer, through the keys
    the methods read; a key that is not there is [None]. *)
Record IndexedPayment : Type := mkIndexedPayment {
  receiver : option string;
  amount : option Z
}.

Record IndexedTransaction : Type := mkIndexedTransaction {
  sender : option string;
  confirmedRound : option Z;                  (* ["confirmed-round"] *)
  paymentTransaction : option IndexedPayment  (* ["payment-transaction"] *)
}.

Record AlgoData : Type := mkAlgoData {
  transaction : option IndexedTransaction;
  lastRound : option Z;                       (* ["last-round"] *)
  minFee : option Z                           (* ["min-fee"] *)
}.

(** What [axios.get] does: it returns a response with this body or
    throws. *)
Inductive AxiosReply : Type :=
| AxiosReturns (d : AlgoData)
| AxiosThrows (e : Error).

Record Tx : Type := mkTx {
  txFrom : option string;
  txTo : option string;
  txAmount : BigNumber;
  blockHeight : BigNumber;
  pending : bool;
  confirmed : bool
}.

(** Computations that call [axios.get]: the outcome, the next state of
    the network and the endpoints requested. *)
Module Axios.

Definition t (St A : Type) : Type := St -> Outcome A * St * list string.

Section Ops.
Context {St : Type}.

Definition ret {A} (a : A) : t St A := fun s => (Resolved a, s, []).

Definition throw {A} (e : Error) : t St A := fun s => (Rejected e, s, []).

Definition bind {A B} (m : t St A) (f : A -> t St B) : t St B :=
  fun s =>
    match m s with
    | (Resolved a, s1, l1) =>
        match f a s1 with (o, s2, l2) => (o, s2, l1 ++ l2) end
    | (Rejected e, s1, l1) => (Rejected e, s1, l1)
    | (Pending, s1, l1) => (Pending, s1, l1)
    end.

Definition get (network : string -> St -> AxiosReply * St) (endpoint : string)
  : t St AlgoData :=
  fun s =>
    match network endpoint s with
    | (AxiosReturns d, s1) => (Resolved d, s1, [endpoint])
    | (AxiosThrows e, s1) => (Rejected e, s1, [endpoint])
    end.
End Ops.

End Axios.

(** [a - b >= c] on numbers of which some may be [NaN]. *)
Definition differenceAtLeast (a b : option Z) (c : Z) : bool :=
  match a, b with
  | Some a, Some b => c <=? a - b
  | _, _ => false
  end.

Section Algorand.
Variable St : Type.
(** The network behind [axios]. *)
Variable network : string -> St -> AxiosReply * St.

Definition getCurrentHeight (cfg : AlgorandConfig) : Axios.t St BigNumber :=
  let endpoint := (apiURL cfg ++ "/v2/transactions/params")%string in
  Axios.bind (Axios.get network endpoint) (fun response =>
  Axios.ret (lastRound response)).

Definition getFee (cfg : AlgorandConfig) : Axios.t St BigNumber :=
  let endpoint := (apiURL cfg ++ "/v2/transactions/params")%string in
  Axios.bind (Axios.get network endpoint) (fun response =>
  Axios.ret (minFee response)).

Definition getTx (cfg : AlgorandConfig) (txId : string) : Axios.t St Tx :=
  let endpoint := (indexerURL cfg ++ "/v2/transactions/" ++ txId)%string in
  Axios.bind (Axios.get network endpoint) (fun response =>
  Axios.bind (getCurrentHeight cfg) (fun latestBlockHeight =>
  match transaction response with
  | None =>
      Axios.throw {| message :=
        "Cannot read properties of undefined (reading 'confirmed-round')" |}
  | Some indexed =>
      let txBlockHeight := confirmedRound indexed in
      match paymentTransaction indexed with
      | None =>
          Axios.throw {| message :=
            "Cannot read properties of undefined (reading 'receiver')" |}
      | Some payment =>
          Axios.ret
            {| txFrom := sender indexed;
               txTo := receiver payment;
               txAmount := amount payment;
               blockHeight := txBlockHeight;
               pending := false;
               confirmed :=
                 differenceAtLeast latestBlockHeight txBlockHeight
                   (minConfirm cfg) |}
      end
  end)).
End Algorand.

(** ** Reading a run, continued *)

(** A request for a chunk, or the admission of one, is for the item
    [txid] and for an offset in [allowed]. *)
Definition chunkRequestTo (txid : string) (allowed : Z -> Prop) (ev : Event)
  : Prop :=
  match ev with
  | EvRequest (PostChunk t o _) _ => t = txid /\ allowed o
  | EvAdmit o _ => allowed o
  | _ => True
  end.

Definition isFinish (ev : Event) : bool :=
  match ev with
  | EvRequest (PostFinish _) _ => true
  | _ => false
  end.

(** The direct uploads of a run. *)
Fixpoint directPosts (log : list Event) : nat :=
  match log with
  | [] => O
  | EvRequest (PostTx _) _ :: rest => S (directPosts rest)
  | _ :: rest => directPosts rest
  end.

(** From the state [s] the request [q] throws the errors [errs], one per
    call, and is then answered with [res], which leaves the service in
    [s']. *)
Inductive throwsThenReturns {St : Type} (api : Request -> St -> Reply * St)
    (q : Request) : list Error -> St -> AxiosResponse -> St -> Prop :=
| returnsAtOnce s res s' :
    api q s = (Returns res, s') -> throwsThenReturns api q [] s res s'
| throwsFirst e errs s s1 res s' :
    api q s = (Throws e, s1) ->
    throwsThenReturns api q errs s1 res s' ->
    throwsThenReturns api q (e :: errs) s res s'.

(** The first two direct uploads fail on the network and the third is
    accepted. *)
Definition flakyService (q : Request) (n : nat) : Reply * nat :=
  match q with
  | GetChunkInfo _ _ => (respond 200 "OK" (DataOffsets []), n)
  | PostFinish _ => (respond 201 "Created" DataNone, n)
  | _ =>
      if Nat.ltb n 2 then (Throws {| message := "socket hang up" |}, S n)
      else (respond 201 "Created" DataNone, S n)
  end.

(** The item is already stored: the presence query is answered 201. *)
Definition storedService (q : Request) (s : unit) : Reply * unit :=
  match q with
  | GetChunkInfo _ _ => (respond 201 "Created" DataNone, s)
  | _ => (respond 500 "Internal Server Error" DataNone, s)
  end.

(** Every chunk of a 2,500,000-byte item in chunks of 1,000,000 is
    present. *)
Definition completeService (q : Request) (s : unit) : Reply * unit :=
  match q with
  | GetChunkInfo _ _ =>
      (respond 200 "OK" (DataOffsets [0; 1000000; 2000000]), s)
  | PostFinish _ => (respond 201 "Created" DataNone, s)
  | _ => (respond 500 "Internal Server Error" DataNone, s)
  end.

(** An Algorand node and indexer at round 105 that know one payment of
    round 100. *)
Definition algoNetwork (endpoint : string) (s : unit) : AxiosReply * unit :=
  if String.eqb endpoint "https://algoindexer.example.org/v2/transactions/TX"
  then (AxiosReturns
          {| transaction :=
               Some {| sender := Some "ALICE"; confirmedRound := Some 100;
                       paymentTransaction :=
                         Some {| receiver := Some "BOB"; amount := Some 7 |} |};
             lastRound := None; minFee := None |}, s)
  else if String.eqb endpoint "https://node.example.org/v2/transactions/params"
  then (AxiosReturns {| transaction := None; lastRound := Some 105;
                        minFee := Some 1000 |}, s)
  else (AxiosThrows {| message := "Request failed with status code 404" |}, s).

(** A site of two files, and an item under the key [__proto__]. *)
Definition siteItems : JsMap :=
  [("index.html", "id-index"); ("__proto__", "id-proto"); ("app.js", "id-app")].

(** The configuration for a provider at example.org with the inherited
    [minConfirm]. *)
Definition algoConfig : AlgorandConfig :=
  newAlgorandConfig "https://example.org" None.

(** * Properties *)

(** A comparison on integers that arithmetic decides. *)
Ltac test_false t :=
  replace t with false
    by (symmetry;
        first [apply Z.ltb_ge | apply Z.leb_gt | apply Z.eqb_neq];
        (lia || assumption)).

Ltac test_true t :=
  replace t with true
    by (symmetry;
        first [apply Z.ltb_lt | apply Z.leb_le | apply Z.eqb_eq]; lia).

(** ** Numbers *)

Lemma Qeq_bool_inject_Z n b : Qeq_bool (inject_Z n) (inject_Z b) = (n =? b).
Proof.
  unfold Qeq_bool, inject_Z. cbn. rewrite !Z.mul_1_r. reflexivity.
Qed.

Lemma Qeq_bool_integer n q b :
  (q == inject_Z b)%Q -> Qeq_bool (inject_Z n) q = (n =? b).
Proof.
  intros H. rewrite (Qeqb_comp _ _ (Qeq_refl _) _ _ H).
  apply Qeq_bool_inject_Z.
Qed.

Lemma Qlt_bool_false x y : (y <= x)%Q -> Qlt_bool x y = false.
Proof.
  intros H. unfold Qlt_bool. apply Qle_bool_iff in H. rewrite H. reflexivity.
Qed.

Lemma Qeq_bool_zero b :
  (1 <= b)%Q -> Qeq_bool (inject_Z (Z.of_nat 0)) b = false.
Proof.
  destruct b as [n d]. unfold Qle, Qeq_bool.
  cbn [Qnum Qden inject_Z Z.of_nat]. intros H.
  apply Z.eqb_neq. lia.
Qed.

Lemma Qlt_bool_true x y : (x < y)%Q -> Qlt_bool x y = true.
Proof.
  intros H. unfold Qlt_bool. destruct (Qle_bool y x) eqn:E; [|reflexivity].
  apply Qle_bool_iff in E. exfalso. exact (Qlt_not_le _ _ H E).
Qed.

(** ** Events of a computation *)


Section EmitsLemmas.
Context {St : Type} (P : Event -> Prop).

Lemma Emits_ret {A} (a : A) : Emits P (Async.ret (St := St) a).
Proof. intros s. constructor. Qed.

Lemma Emits_throw {A} e : Emits P (Async.throw (St := St) (A := A) e).
Proof. intros s. constructor. Qed.

Lemma Emits_emit ev : P ev -> Emits P (Async.emit (St := St) ev).
Proof. intros H s. cbn. auto. Qed.

Lemma Emits_bind {A B} (m : Async.t St A) (f : A -> Async.t St B) :
  Emits P m -> (forall a, Emits P (f a)) -> Emits P (Async.bind m f).
Proof.
  intros Hm Hf s. unfold Async.bind.
  specialize (Hm s). destruct (m s) as [[o s1] l1]. cbn in Hm.
  destruct o as [a| |]; cbn; auto.
  specialize (Hf a s1). destruct (f a s1) as [[o2 s2] l2]. cbn in *.
  apply Forall_app; auto.
Qed.

Lemma Emits_tryCatch {A} (m : Async.t St A) h :
  Emits P m -> (forall e, Emits P (h e)) -> Emits P (Async.tryCatch m h).
Proof.
  intros Hm Hh s. unfold Async.tryCatch.
  specialize (Hm s). destruct (m s) as [[o s1] l1]. cbn in Hm.
  destruct o as [a|e|]; cbn; auto.
  specialize (Hh e s1). destruct (h e s1) as [[o2 s2] l2]. cbn in *.
  apply Forall_app; auto.
Qed.

Lemma Emits_spawn {A} (m : Async.t St A) :
  Emits P m -> Emits P (Async.spawn m).
Proof.
  intros Hm s. unfold Async.spawn. specialize (Hm s).
  destruct (m s) as [[o s1] l1]. exact Hm.
Qed.

Lemma Emits_awaitAll {A} (ps : list (Promise A)) :
  (forall n settled, P (EvAwaitAll n settled)) ->
  Emits P (Async.awaitAll (St := St) ps).
Proof.
  intros H s. unfold Async.awaitAll.
  destruct (Async.firstRejected ps); [cbn; auto|].
  destruct (Async.allResolved ps); cbn; auto.
Qed.

Lemma Emits_newPromiseResolveOnly {A} (m : Async.t St A) :
  Emits P m -> Emits P (newPromiseResolveOnly m).
Proof.
  intros Hm s. unfold newPromiseResolveOnly. specialize (Hm s).
  destruct (m s) as [[o s1] l1]. destruct o; exact Hm.
Qed.

Lemma Emits_retryLoop {A} opts (fn : nat -> Async.t St (Attempt A)) :
  (forall ms, P (EvBackoff ms)) -> (forall num, Emits P (fn num)) ->
  forall left num errs, Emits P (retryLoop opts left num errs fn).
Proof.
  intros Hb Hfn. induction left as [|left IH]; intros num errs; cbn [retryLoop];
    apply Emits_bind; auto; intros [x|e|e];
    auto using Emits_ret, Emits_throw.
  apply Emits_bind; auto using Emits_emit.
Qed.

Lemma Emits_retry {A} (fn : nat -> Async.t St (Attempt A)) opts :
  (forall ms, P (EvBackoff ms)) -> (forall num, Emits P (fn num)) ->
  Emits P (retry fn opts).
Proof. intros. unfold retry. apply Emits_retryLoop; auto. Qed.
End EmitsLemmas.

Section EmitsUploader.
Context {St : Type} (api : Request -> St -> Reply * St) (P : Event -> Prop).

Lemma Emits_apiCall q :
  (forall r, P (EvRequest q r)) -> Emits P (apiCall St api q).
Proof.
  intros H s. unfold apiCall. destruct (api q s) as [[res|e] s1]; cbn; auto.
Qed.

Lemma Emits_attempt {A} (body : Async.t St A) bailOn :
  Emits P body -> Emits P (attempt St body bailOn).
Proof.
  intros Hm s. unfold attempt. specialize (Hm s).
  destruct (body s) as [[o s1] l1]. destruct o; exact Hm.
Qed.

Lemma Emits_promiseFactory txid d o :
  (forall ms, P (EvBackoff ms)) ->
  (forall r, P (EvRequest (PostChunk txid o d) r)) ->
  Emits P (promiseFactory St api txid d o).
Proof.
  intros Hb Hr. unfold promiseFactory.
  apply Emits_newPromiseResolveOnly, Emits_retry; auto.
  intros _. apply Emits_attempt, Emits_bind.
  - apply Emits_apiCall; auto.
  - intros a. apply Emits_ret.
Qed.
End EmitsUploader.

(** ** The window of chunk uploads *)

Lemma inFlightFrom_app l1 : forall l2 c,
  inFlightFrom c (l1 ++ l2) = inFlightFrom (inFlightFrom c l1) l2.
Proof.
  induction l1 as [|ev l1 IH]; intros l2 c; [reflexivity|].
  destruct ev; cbn; apply IH.
Qed.

Lemma windowedFrom_app b l1 : forall l2 c,
  windowedFrom b c (l1 ++ l2)
  = windowedFrom b c l1 && windowedFrom b (inFlightFrom c l1) l2.
Proof.
  induction l1 as [|ev l1 IH]; intros l2 c; [reflexivity|].
  destruct ev; cbn; rewrite ?IH, ?andb_assoc; reflexivity.
Qed.

Lemma quiet_inFlightFrom l : forall c,
  Forall (fun ev => isControl ev = false) l -> inFlightFrom c l = c.
Proof.
  induction l as [|ev l IH]; intros c H; [reflexivity|].
  inversion H as [|? ? Hev Hl]; subst.
  destruct ev; cbn in *; try discriminate; auto.
Qed.

Lemma quiet_windowedFrom b l : forall c,
  Forall (fun ev => isControl ev = false) l -> windowedFrom b c l = true.
Proof.
  induction l as [|ev l IH]; intros c H; [reflexivity|].
  inversion H as [|? ? Hev Hl]; subst.
  destruct ev; cbn in *; try discriminate; auto.
Qed.

(** What [windowedFrom] says about every point of a run. *)
Lemma windowedFrom_prefix b pre : forall c post,
  windowedFrom b c (pre ++ post) = true ->
  Z.of_nat c <= b ->
  Z.of_nat (inFlightFrom c pre) <= b
  /\ (forall o len rest, post = EvAdmit o len :: rest ->
        Z.of_nat (inFlightFrom c pre) < b)
  /\ (forall n settled rest,
        post = EvAwaitAll n settled :: rest -> n = inFlightFrom c pre).
Proof.
  induction pre as [|ev pre IH]; intros c post H Hc.
  - cbn in *. split; [exact Hc|]. split.
    + intros o len rest ->. cbn in H.
      apply andb_prop in H as [H _]. lia.
    + intros n settled rest ->. cbn in H.
      apply andb_prop in H as [H _]. apply Nat.eqb_eq in H. exact H.
  - destruct ev; cbn in H |- *; try (apply IH; assumption).
    + apply andb_prop in H as [H1 H2]. apply IH; [exact H2|lia].
    + apply andb_prop in H as [H1 H2]. apply IH; [exact H2|].
      destruct settled; lia.
Qed.

(** With [b] uploads in flight, an admission is preceded by a
    [Promise.all] over all of them that came to an end. *)
Lemma windowedFrom_full_awaits b mid : forall c o len rest,
  windowedFrom b c (mid ++ EvAdmit o len :: rest) = true ->
  Z.of_nat c = b ->
  exists l1 l2, mid = l1 ++ EvAwaitAll c true :: l2.
Proof.
  induction mid as [|ev mid IH]; intros c o len rest H Hc.
  - cbn in H. apply andb_prop in H as [H _]. apply Z.ltb_lt in H. lia.
  - destruct ev as [q r|ms|o' len'|n settled|w]; cbn in H.
    + destruct (IH _ _ _ _ H Hc) as (l1 & l2 & ->).
      exists (EvRequest q r :: l1), l2. reflexivity.
    + destruct (IH _ _ _ _ H Hc) as (l1 & l2 & ->).
      exists (EvBackoff ms :: l1), l2. reflexivity.
    + apply andb_prop in H as [H _]. apply Z.ltb_lt in H. lia.
    + apply andb_prop in H as [Hn H]. apply Nat.eqb_eq in Hn. subst n.
      destruct settled.
      * exists [], mid. reflexivity.
      * destruct (IH _ _ _ _ H Hc) as (l1 & l2 & ->).
        exists (EvAwaitAll c false :: l1), l2. reflexivity.
    + destruct (IH _ _ _ _ H Hc) as (l1 & l2 & ->).
      exists (EvPool w :: l1), l2. reflexivity.
Qed.

Section KeepsLemmas.
Context {St : Type} (b : Z).

Lemma Keeps_ret {A} c (a : A) (Q : A -> nat -> Prop) :
  Q a c -> Keeps b c (Async.ret (St := St) a) Q.
Proof. intros H s. cbn. auto. Qed.

Lemma Keeps_throw {A} c e (Q : A -> nat -> Prop) :
  Keeps b c (Async.throw (St := St) e) Q.
Proof. intros s. cbn. auto. Qed.

Lemma Keeps_bind {A B} c (m : Async.t St A) (f : A -> Async.t St B)
    (Q1 : A -> nat -> Prop) (Q2 : B -> nat -> Prop) :
  Keeps b c m Q1 ->
  (forall a c', Q1 a c' -> Keeps b c' (f a) Q2) ->
  Keeps b c (Async.bind m f) Q2.
Proof.
  intros Hm Hf s. unfold Async.bind.
  destruct (Hm s) as [Hw Hq]. destruct (m s) as [[o s1] l1].
  cbn in Hw, Hq. destruct o as [a| |]; cbn; auto.
  destruct (Hf a _ Hq s1) as [Hw2 Hq2].
  destruct (f a s1) as [[o2 s2] l2]. cbn in *.
  rewrite windowedFrom_app, Hw, Hw2, inFlightFrom_app. auto.
Qed.

Lemma Keeps_quiet {A} c (m : Async.t St A) (Q : A -> nat -> Prop) :
  Emits (fun ev => isControl ev = false) m ->
  (forall a, Q a c) -> Keeps b c m Q.
Proof.
  intros Hm HQ s. specialize (Hm s).
  rewrite (quiet_windowedFrom _ _ _ Hm), (quiet_inFlightFrom _ _ Hm).
  split; [reflexivity|]. destruct (Async.outcome (m s)); auto.
Qed.

Lemma Keeps_admit c o len (Q : unit -> nat -> Prop) :
  Z.of_nat c < b -> Q tt (S c) ->
  Keeps b c (Async.emit (St := St) (EvAdmit o len)) Q.
Proof.
  intros Hc HQ s. cbn. split; [|exact HQ].
  rewrite andb_true_r. apply Z.ltb_lt. exact Hc.
Qed.

Lemma Keeps_awaitAll {A} (ps : list (Promise A))
    (Q : list A -> nat -> Prop) :
  (forall l, Q l O) -> Keeps b (List.length ps) (Async.awaitAll (St := St) ps) Q.
Proof.
  intros HQ s. unfold Async.awaitAll.
  destruct (Async.firstRejected ps);
    [cbn; rewrite Nat.eqb_refl; auto|].
  destruct (Async.allResolved ps); cbn; rewrite Nat.eqb_refl; auto.
Qed.
End KeepsLemmas.

Section Window.
Context {St : Type} (api : Request -> St -> Reply * St).

Lemma promiseFactory_quiet txid d o :
  Emits (fun ev => isControl ev = false) (promiseFactory St api txid d o).
Proof. apply Emits_promiseFactory; reflexivity. Qed.

Lemma apiCall_quiet q :
  Emits (fun ev => isControl ev = false) (apiCall St api q).
Proof. apply Emits_apiCall; reflexivity. Qed.

(** The loop keeps the window, and leaves in [processing] the uploads
    that are in flight. *)
Lemma uploadLoop_windowed txid batchSize b missing cnks :
  (batchSize == inject_Z b)%Q -> 1 <= b ->
  forall offset processing,
    Z.of_nat (List.length processing) <= b ->
    Keeps b (List.length processing)
      (uploadLoop St api txid batchSize missing cnks offset processing)
      (fun ps c => c = List.length ps).
Proof.
  intros Hq Hb. induction cnks as [|chunk rest IH]; intros offset processing Hp.
  - cbn [uploadLoop]. apply Keeps_ret. reflexivity.
  - cbn [uploadLoop]. cbv zeta.
    apply Keeps_bind with
      (Q1 := fun p1 c => c = List.length p1 /\ Z.of_nat c < b).
    { rewrite (Qeq_bool_integer _ _ _ Hq).
      destruct (Z.of_nat (List.length processing) =? b) eqn:Hfull.
      - apply Keeps_bind with (Q1 := fun _ c => c = O).
        + apply Keeps_awaitAll. reflexivity.
        + intros _ c ->. apply Keeps_ret. cbn. split; [reflexivity|lia].
      - apply Z.eqb_neq in Hfull. apply Keeps_ret. split; [reflexivity|lia]. }
    intros p1 c [-> Hlt].
    apply Keeps_bind with
      (Q1 := fun p2 c => c = List.length p2 /\ Z.of_nat c <= b).
    { destruct (includes missing offset).
      - apply Keeps_bind with (Q1 := fun _ c => c = S (List.length p1)).
        + apply Keeps_admit; [exact Hlt|reflexivity].
        + intros _ c ->.
          apply Keeps_bind with (Q1 := fun _ c => c = S (List.length p1)).
          * apply Keeps_quiet; [|reflexivity].
            apply Emits_spawn, promiseFactory_quiet.
          * intros p c ->. apply Keeps_ret.
            rewrite length_app. cbn [List.length]. split; lia.
      - apply Keeps_ret. split; [reflexivity|lia]. }
    intros p2 c [-> Hle]. apply IH. exact Hle.
Qed.

Lemma chunked_windowed dataStream txid size chunkSize batchSize b :
  (batchSize == inject_Z b)%Q -> 1 <= b ->
  Keeps b O
    (chunkedTransactionUploader St api dataStream txid size chunkSize
       batchSize)
    (fun _ _ => True).
Proof.
  intros Hq Hb. unfold chunkedTransactionUploader.
  destruct ((chunkSize <? 1000000) || (190000000 <? chunkSize));
    [apply Keeps_throw|].
  destruct (Qlt_bool batchSize 1); [apply Keeps_throw|].
  apply Keeps_bind with (Q1 := fun _ c => c = O).
  { apply Keeps_quiet; [apply apiCall_quiet|reflexivity]. }
  intros getres c ->.
  destruct (status getres =? 201); [apply Keeps_ret; exact I|].
  destruct (checkAndThrow getres "Getting chunk info" []);
    [apply Keeps_throw|].
  destruct (data getres); try apply Keeps_throw.
  apply Keeps_bind with (Q1 := fun ps c => c = List.length ps).
  { apply (uploadLoop_windowed txid batchSize b _ _ Hq Hb 0 []). cbn. lia. }
  intros ps c ->.
  apply Keeps_bind with (Q1 := fun _ c => c = O).
  { apply Keeps_awaitAll. reflexivity. }
  intros _ c ->.
  apply Keeps_bind with (Q1 := fun _ c => c = O).
  { apply Keeps_quiet; [apply apiCall_quiet|reflexivity]. }
  intros fin c ->.
  destruct (status fin =? 402); [apply Keeps_throw|].
  destruct (checkAndThrow fin "Finalising upload" [201]);
    [apply Keeps_throw|apply Keeps_ret; exact I].
Qed.
End Window.

(** ** Outcome and events together *)

Section PostLemmas.
Context {St : Type}.


Lemma Post_throw {A} e (Q : Outcome A -> list Event -> Prop) :
  Q (Rejected e) [] -> Post (Async.throw (St := St) e) Q.
Proof. intros H s. exact H. Qed.




End PostLemmas.

(** ** Which requests a chunked upload sends *)

Section ChunkedRequests.
Context {St : Type} (api : Request -> St -> Reply * St).

Lemma uploadLoop_no_direct_post txid b missing cnks :
  forall offset processing,
    Emits (fun ev => isDirectPost ev = false)
      (uploadLoop St api txid b missing cnks offset processing).
Proof.
  induction cnks as [|chunk rest IH]; intros offset processing;
    cbn [uploadLoop]; [apply Emits_ret|]. cbv zeta.
  apply Emits_bind.
  - destruct (Qeq_bool _ b); [|apply Emits_ret].
    apply Emits_bind; [apply Emits_awaitAll; reflexivity|].
    intros _. apply Emits_ret.
  - intros p1. apply Emits_bind; [|intros p2; apply IH].
    destruct (includes missing offset); [|apply Emits_ret].
    apply Emits_bind; [apply Emits_emit; reflexivity|]. intros _.
    apply Emits_bind; [|intros p; apply Emits_ret].
    apply Emits_spawn, Emits_promiseFactory; reflexivity.
Qed.

Lemma chunked_no_direct_post dataStream txid size chunkSize b :
  Emits (fun ev => isDirectPost ev = false)
    (chunkedTransactionUploader St api dataStream txid size chunkSize b).
Proof.
  unfold chunkedTransactionUploader.
  destruct (_ || _); [apply Emits_throw|].
  destruct (Qlt_bool b 1); [apply Emits_throw|].
  apply Emits_bind; [apply Emits_apiCall; reflexivity|]. intros getres.
  destruct (status getres =? 201); [apply Emits_ret|].
  destruct (checkAndThrow getres _ _); [apply Emits_throw|].
  destruct (data getres); try apply Emits_throw.
  apply Emits_bind; [apply uploadLoop_no_direct_post|]. intros ps.
  apply Emits_bind; [apply Emits_awaitAll; reflexivity|]. intros _.
  apply Emits_bind; [apply Emits_apiCall; reflexivity|]. intros fin.
  destruct (status fin =? 402); [apply Emits_throw|].
  destruct (checkAndThrow fin _ _); [apply Emits_throw|apply Emits_ret].
Qed.

(** With a valid configuration the first thing a chunked upload does is
    the presence query. *)
Lemma chunked_starts_with_query dataStream txid size chunkSize b s :
  1000000 <= chunkSize <= 190000000 -> (1 <= b)%Q ->
  exists reply rest,
    Async.events
      (chunkedTransactionUploader St api dataStream txid size chunkSize b s)
    = EvRequest (GetChunkInfo txid size) reply :: rest.
Proof.
  intros Hc Hb. unfold chunkedTransactionUploader.
  test_false (chunkSize <? 1000000).
  test_false (190000000 <? chunkSize).
  rewrite (Qlt_bool_false _ _ Hb).
  cbn [orb]. unfold Async.bind at 1. unfold apiCall.
  destruct (api (GetChunkInfo txid size) s) as [[res|e] s1].
  - match goal with
    | |- context [match ?k s1 with _ => _ end] => destruct (k s1) as [[o2 s2] l2]
    end.
    cbn. eauto.
  - cbn. eauto.
Qed.
End ChunkedRequests.

(** ** The offsets of a chunked upload *)




Lemma missingFrom_filter present c : forall n i,
  missingFrom n i c present
  = filter (fun o => negb (includes present o))
      (map (fun k => (i + Z.of_nat k) * c) (seq 0 n)).
Proof.
  induction n as [|n IH]; intros i; [reflexivity|].
  cbn [missingFrom seq map filter]. rewrite Z.add_0_r.
  rewrite IH, <- seq_shift, map_map.
  assert (E : map (fun k => (i + 1 + Z.of_nat k) * c) (seq 0 n)
            = map (fun k => (i + Z.of_nat (S k)) * c) (seq 0 n)).
  { apply map_ext. intros k. f_equal. lia. }
  rewrite E. destruct (negb (includes present (i * c))); reflexivity.
Qed.

Lemma js_chunks size c :
  0 <= size -> 0 < c ->
  Z.quot (size - Z.rem size c) c = size / c.
Proof.
  intros Hs Hc. rewrite Z.rem_mod_nonneg by lia.
  rewrite Z.quot_div_nonneg.
  - rewrite (Z.div_mod size c) at 1 by lia.
    replace (c * (size / c) + size mod c - size mod c) with (size / c * c) by lia.
    apply Z.div_mul. lia.
  - pose proof (Z.mod_le size c Hs Hc). lia.
  - lia.
Qed.

Lemma missingOffsets_filter size c present :
  0 <= size -> 0 < c ->
  missingOffsets size c present
  = filter (fun o => negb (includes present o))
      (map (fun k => Z.of_nat k * c) (seq 0 (Z.to_nat (size / c) + 1))).
Proof.
  intros Hs Hc. unfold missingOffsets. rewrite js_chunks by assumption.
  rewrite missingFrom_filter. f_equal.
  pose proof (Z.div_pos size c Hs Hc).
  replace (Z.to_nat (size / c + 1)) with (Z.to_nat (size / c) + 1)%nat by lia.
  reflexivity.
Qed.

Lemma includes_In arr x : includes arr x = true <-> In x arr.
Proof.
  unfold includes. rewrite existsb_exists. split.
  - intros [y [Hy E]]. apply Z.eqb_eq in E. subst. exact Hy.
  - intros H. exists x. split; [exact H|apply Z.eqb_refl].
Qed.





Section Admissions.
Context {St : Type} (api : Request -> St -> Reply * St).




End Admissions.

(** ** The batch uploader *)

Section Batch.
Context {St : Type} (api : Request -> St -> Reply * St).
Context (force : bool) (createData : Buffer -> DataItem)
  (bufferFrom : string -> Buffer) (Any : Type).

(** [retry] resolves only with what some attempt returned. *)
Lemma retryLoop_resolved {A} opts (fn : nat -> Async.t St (Attempt A)) :
  forall left num errs s x,
    Async.outcome (retryLoop opts left num errs fn s) = Resolved x ->
    exists n s0, Async.outcome (fn n s0) = Resolved (Returned x).
Proof.
  induction left as [|left IH]; intros num errs s x; cbn [retryLoop];
    unfold Async.bind at 1;
    destruct (fn num s) as [[o s1] l1] eqn:Hfn;
    (destruct o as [[y|e|e]| |]; cbn; try discriminate).
  - intros [= ->]. exists num, s. rewrite Hfn. reflexivity.
  - intros [= ->]. exists num, s. rewrite Hfn. reflexivity.
  - unfold Async.bind.
    destruct (retryLoop opts left (S num) (errs ++ [e]) fn s1)
      as [[o2 s2] l2] eqn:Hrec.
    cbn. intros ->. apply (IH (S num) (errs ++ [e]) s1 x).
    rewrite Hrec. reflexivity.
Qed.

(** With [logFunction] left out, an attempt on an item whose index is a
    multiple of [concurrency] throws as soon as its upload has resolved. *)
Lemma processAttempt_without_logFunction concurrency rp item i s res s1 l :
  remIsZero i concurrency = true ->
  processItem St api force createData bufferFrom item s = (Resolved res, s1, l) ->
  processAttempt St api force createData bufferFrom Any concurrency rp None
    item i s
  = (Resolved (Threw {| message := "logFunction is not a function" |}), s1,
     l ++ []).
Proof.
  intros Hi Hitem. unfold processAttempt, attempt, Async.bind.
  rewrite Hitem, Hi. reflexivity.
Qed.

Lemma processAttempt_never_returns concurrency rp item i s v :
  remIsZero i concurrency = true ->
  Async.outcome
    (processAttempt St api force createData bufferFrom Any concurrency rp None
       item i s) <> Resolved (Returned v).
Proof.
  intros Hi. unfold processAttempt, attempt, Async.bind.
  destruct (processItem St api force createData bufferFrom item s)
    as [[o s1] l1].
  destruct o as [res|e|]; cbn; try discriminate.
  - rewrite Hi. cbn. discriminate.
  - destruct (isNotEnoughFunds e); discriminate.
Qed.

Lemma processTask_never_resolves concurrency rp item i s v :
  remIsZero i concurrency = true ->
  Async.outcome
    (processTask St api force createData bufferFrom Any concurrency rp None
       item i s) <> Resolved v.
Proof.
  intros Hi. unfold processTask, retry. unfold Async.bind at 1.
  match goal with |- context [match ?w with _ => _ end] =>
    destruct w as [[o s1] l1] eqn:Hretry end.
  destruct o as [x| |]; cbn; try discriminate.
  exfalso.
  destruct (retryLoop_resolved _ _ _ _ _ s x
              ltac:(rewrite Hretry; reflexivity)) as (n & s0 & H).
  exact (processAttempt_never_returns _ _ _ _ _ _ Hi H).
Qed.

(** One step of the pool, as far as the outcome goes. *)
Lemma poolProcess_step (task : Item -> Z -> Async.t St JsUndefined)
    item rest i errs res s :
  Async.outcome (poolProcess St task (item :: rest) i errs res s)
  = match task item i s with
    | (Resolved v, s1, _) =>
        Async.outcome (poolProcess St task rest (i + 1) errs (res ++ [v]) s1)
    | (Rejected e, s1, _) =>
        if isNotEnoughFunds e then Rejected e
        else Async.outcome
               (poolProcess St task rest (i + 1) (errs ++ [e]) res s1)
    | (Pending, _, _) => Pending
    end.
Proof.
  cbn [poolProcess].
  unfold Async.bind, Async.tryCatch, handleError, Async.ret, Async.throw.
  destruct (task item i s) as [[[v|e|] s1] l1]; cbn -[poolProcess].
  - destruct (poolProcess St task rest (i + 1) errs (res ++ [v]) s1)
      as [[o2 s2] l2]. reflexivity.
  - destruct (isNotEnoughFunds e); cbn -[poolProcess]; [reflexivity|].
    destruct (poolProcess St task rest (i + 1) (errs ++ [e]) res s1)
      as [[o2 s2] l2]. reflexivity.
  - reflexivity.
Qed.

(** What a pool that resolves has done with each item. *)
Lemma poolProcess_resolved (task : Item -> Z -> Async.t St JsUndefined)
    (skip : Z -> Prop) :
  (forall item i s v, skip i -> Async.outcome (task item i s) <> Resolved v) ->
  forall items i errs res s errs' res',
    Async.outcome (poolProcess St task items i errs res s)
      = Resolved (errs', res') ->
    exists per,
      List.length per = List.length items
      /\ errs' = errs ++ errorsOf per
      /\ res' = res ++ resultsOf per
      /\ Forall (fun e => isNotEnoughFunds e = false) (errorsOf per)
      /\ forall k, (k < List.length items)%nat -> skip (i + Z.of_nat k) ->
           exists e, nth_error per k = Some (Some e).
Proof.
  intros Hskip. induction items as [|item rest IH];
    intros i errs res s errs' res'.
  - cbn. intros [= <- <-]. exists []. cbn. rewrite !app_nil_r.
    repeat split; auto. intros k Hk. lia.
  - rewrite poolProcess_step.
    destruct (task item i s) as [[[v|e|] s1] l1] eqn:Htask;
      try discriminate.
    + (* the task resolved *)
      intros Hrest.
      destruct (IH _ _ _ _ _ _ Hrest) as (per & Hlen & He & Hr & Hf & Hk).
      exists (None :: per). cbn. destruct v.
      rewrite <- app_assoc in Hr. repeat split; auto.
      intros [|k] Hlt Hs.
      * exfalso. rewrite Z.add_0_r in Hs.
        apply (Hskip item i s undefined Hs). rewrite Htask. reflexivity.
      * cbn. apply Hk; [lia|].
        replace (i + 1 + Z.of_nat k) with (i + Z.of_nat (S k)) by lia.
        exact Hs.
    + (* the task rejected: the error handler decides *)
      destruct (isNotEnoughFunds e) eqn:Hfunds; try discriminate.
      intros Hrest.
      destruct (IH _ _ _ _ _ _ Hrest) as (per & Hlen & He & Hr & Hf & Hk).
      exists (Some e :: per). cbn.
      rewrite <- app_assoc in He. repeat split; auto.
      intros [|k] Hlt Hs; [cbn; eauto|].
      cbn. apply Hk; [lia|].
      replace (i + 1 + Z.of_nat k) with (i + Z.of_nat (S k)) by lia.
      exact Hs.
Qed.

(** The pool rejects only with an insufficient-funds error that its
    handler threw. *)
Lemma poolProcess_rejected (task : Item -> Z -> Async.t St JsUndefined) :
  forall items i errs res s e,
    Async.outcome (poolProcess St task items i errs res s) = Rejected e ->
    isNotEnoughFunds e = true.
Proof.
  induction items as [|item rest IH]; intros i errs res s e.
  - cbn. discriminate.
  - rewrite poolProcess_step.
    destruct (task item i s) as [[[v|e0|] s1] l1]; try discriminate.
    + apply IH.
    + destruct (isNotEnoughFunds e0) eqn:Hfunds; [|apply IH].
      intros [= <-]. exact Hfunds.
Qed.

(** An upload that fails for insufficient funds is not attempted again:
    the task rejects with that error after the attempt. *)
Lemma processTask_bails_on_funds concurrency rp lf item i s e s1 l :
  processItem St api force createData bufferFrom item s = (Rejected e, s1, l) ->
  isNotEnoughFunds e = true ->
  processTask St api force createData bufferFrom Any concurrency rp lf item i s
  = (Rejected e, s1, l ++ []).
Proof.
  intros Hitem Hfunds. unfold processTask, retry. cbn [retries retryLoop].
  unfold processAttempt, attempt, Async.bind. rewrite Hitem, Hfunds.
  reflexivity.
Qed.
End Batch.

(** ** Uploads that are answered before a [Promise.all] ends *)

Lemma filter_all {A} (l : list A) : filter (fun _ => true) l = l.
Proof. induction l as [|x l IH]; cbn; [|rewrite IH]; reflexivity. Qed.

Lemma unansweredStep_passive txid w ev :
  isPassive ev = true -> unansweredStep txid w ev = w.
Proof.
  destruct ev as [[t sz|t o d|t|raw] [res|e]|ms|o len|n st|wd]; cbn;
    try discriminate; intros _; apply filter_all.
Qed.

Lemma unansweredFrom_app txid l1 : forall l2 w,
  unansweredFrom txid w (l1 ++ l2)
  = unansweredFrom txid (unansweredFrom txid w l1) l2.
Proof.
  induction l1 as [|ev l1 IH]; intros l2 w; [reflexivity|]. cbn. apply IH.
Qed.

Lemma settledFrom_app txid l1 : forall l2 w,
  settledFrom txid w (l1 ++ l2)
  = settledFrom txid w l1 && settledFrom txid (unansweredFrom txid w l1) l2.
Proof.
  induction l1 as [|ev l1 IH]; intros l2 w; [reflexivity|].
  cbn [app settledFrom unansweredFrom].
  destruct ev as [q r|ms|o len|n [|]|wd]; try apply IH.
  destruct w; [apply IH|reflexivity].
Qed.

Lemma passive_unansweredFrom txid l : forall w,
  Forall (fun ev => isPassive ev = true) l -> unansweredFrom txid w l = w.
Proof.
  induction l as [|ev l IH]; intros w H; [reflexivity|].
  inversion H as [|? ? Hev Hl]; subst. cbn.
  rewrite (unansweredStep_passive _ _ _ Hev). apply IH. exact Hl.
Qed.

Lemma passive_settledFrom txid l : forall w,
  Forall (fun ev => isPassive ev = true) l -> settledFrom txid w l = true.
Proof.
  induction l as [|ev l IH]; intros w H; [reflexivity|].
  inversion H as [|? ? Hev Hl]; subst. cbn [settledFrom].
  rewrite (unansweredStep_passive _ _ _ Hev).
  destruct ev as [q r|ms|o len|n [|]|wd]; try discriminate; auto.
Qed.

(** The events of one chunk upload: with nothing else unanswered, an
    answer leaves nothing unanswered. *)
Lemma answers_settledFrom txid o l : forall w,
  Forall (fun ev => isPassive ev = true \/ isAnswer txid o ev = true) l ->
  settledFrom txid w l = true.
Proof.
  induction l as [|ev l IH]; intros w H; [reflexivity|].
  inversion H as [|? ? Hev Hl]; subst. cbn [settledFrom].
  destruct ev as [[t sz|t o' d|t|raw] [res|e]|ms|o' len|n [|]|wd];
    try (apply IH; exact Hl);
    destruct Hev as [Hev|Hev]; discriminate.
Qed.

Lemma answers_unansweredFrom_nil txid o l :
  Forall (fun ev => isPassive ev = true \/ isAnswer txid o ev = true) l ->
  unansweredFrom txid [] l = [].
Proof.
  induction l as [|ev l IH]; intros H; [reflexivity|].
  inversion H as [|? ? Hev Hl]; subst. cbn [unansweredFrom].
  destruct ev as [[t sz|t o' d|t|raw] [res|e]|ms|o' len|n [|]|wd];
    try (apply IH; exact Hl);
    destruct Hev as [Hev|Hev]; discriminate.
Qed.

Lemma answers_unansweredFrom txid o l :
  Forall (fun ev => isPassive ev = true \/ isAnswer txid o ev = true) l ->
  existsb (isAnswer txid o) l = true ->
  unansweredFrom txid [o] l = [].
Proof.
  induction l as [|ev l IH]; intros H Hex; [discriminate|].
  inversion H as [|? ? Hev Hl]; subst. cbn [unansweredFrom].
  cbn [existsb] in Hex.
  destruct (isAnswer txid o ev) eqn:Ha.
  - assert (unansweredStep txid [o] ev = []) as ->.
    { destruct ev as [[t sz|t o' d|t|raw] [res|e]|ms|o' len|n st|wd];
        try discriminate. cbn. cbn in Ha. rewrite Ha. reflexivity. }
    apply (answers_unansweredFrom_nil txid o). exact Hl.
  - destruct Hev as [Hev|Hev]; [|congruence].
    rewrite (unansweredStep_passive _ _ _ Hev). apply IH; assumption.
Qed.

(** What is unanswered after [log] is what was admitted in it, or was
    unanswered before, and has no answer in it. *)
Lemma unansweredFrom_complete txid log : forall w o,
  In o w \/ (exists len, In (EvAdmit o len) log) ->
  In o (unansweredFrom txid w log)
  \/ exists d res, In (EvRequest (PostChunk txid o d) (Returns res)) log.
Proof.
  induction log as [|ev log IH]; intros w o H.
  - left. destruct H as [H|[len []]]. exact H.
  - cbn [unansweredFrom].
    assert (Hstep : In o (unansweredStep txid w ev)
                    \/ (exists len, In (EvAdmit o len) log)
                    \/ exists d res, ev = EvRequest (PostChunk txid o d) (Returns res)).
    { destruct H as [H|[len [H|H]]].
      - destruct (isAnswer txid o ev) eqn:Ha.
        + right. right.
          destruct ev as [[t sz|t o' d|t|raw] [res|e]|ms|o' len|n st|wd];
            try discriminate.
          cbn in Ha. apply andb_prop in Ha as [Ht Ho].
          apply String.eqb_eq in Ht. apply Z.eqb_eq in Ho. subst.
          eauto.
        + left. destruct ev as [q r|ms|o' len|n st|wd];
            try (apply filter_In; split; [exact H|rewrite Ha; reflexivity]).
          right. exact H.
      - subst ev. left. left. reflexivity.
      - right. left. eauto. }
    destruct Hstep as [Hw|[Hadm|[d [res ->]]]].
    + destruct (IH _ o (or_introl Hw)) as [Hin|[d [res Hin]]];
        [left; exact Hin|right; exists d, res; right; exact Hin].
    + destruct (IH (unansweredStep txid w ev) o (or_intror Hadm))
        as [Hin|[d [res Hin]]];
        [left; exact Hin|right; exists d, res; right; exact Hin].
    + right. exists d, res. left. reflexivity.
Qed.

Section SettlesLemmas.
Context {St : Type} (txid : string).

Lemma Settles_ret {A} w (a : A) (Q : A -> list Z -> Prop) :
  Q a w -> Settles txid w (Async.ret (St := St) a) Q.
Proof. intros H s. cbn. auto. Qed.

Lemma Settles_throw {A} w e (Q : A -> list Z -> Prop) :
  Settles txid w (Async.throw (St := St) e) Q.
Proof. intros s. cbn. auto. Qed.

Lemma Settles_bind {A B} w (m : Async.t St A) (f : A -> Async.t St B)
    (Q1 : A -> list Z -> Prop) (Q2 : B -> list Z -> Prop) :
  Settles txid w m Q1 ->
  (forall a w', Q1 a w' -> Settles txid w' (f a) Q2) ->
  Settles txid w (Async.bind m f) Q2.
Proof.
  intros Hm Hf s. unfold Async.bind.
  destruct (Hm s) as [Hw Hq]. destruct (m s) as [[o s1] l1].
  cbn in Hw, Hq. destruct o as [a| |]; cbn; auto.
  destruct (Hf a _ Hq s1) as [Hw2 Hq2].
  destruct (f a s1) as [[o2 s2] l2]. cbn in *.
  rewrite settledFrom_app, Hw, Hw2, unansweredFrom_app. auto.
Qed.

Lemma Settles_passive {A} w (m : Async.t St A) (Q : A -> list Z -> Prop) :
  Emits (fun ev => isPassive ev = true) m ->
  (forall a, Q a w) -> Settles txid w m Q.
Proof.
  intros Hm HQ s. specialize (Hm s).
  rewrite (passive_settledFrom _ _ _ Hm), (passive_unansweredFrom _ _ _ Hm).
  split; [reflexivity|]. destruct (Async.outcome (m s)); auto.
Qed.

(** A [Promise.all] over promises that have all resolved comes to an end
    with nothing unanswered. *)
Lemma Settles_awaitAll {A} w (ps : list (Promise A))
    (Q : list A -> list Z -> Prop) :
  (Async.allResolved ps <> None -> w = []) ->
  (forall l, Q l []) ->
  Settles txid w (Async.awaitAll (St := St) ps) Q.
Proof.
  intros Hw HQ s. unfold Async.awaitAll.
  destruct (Async.firstRejected ps); [cbn; auto|].
  destruct (Async.allResolved ps) as [l|]; [|cbn; auto].
  rewrite Hw by discriminate. cbn. auto.
Qed.
End SettlesLemmas.

Lemma allResolved_app {A} (ps : list (Promise A)) p :
  Async.allResolved (ps ++ [p]) <> None ->
  Async.allResolved ps <> None /\ exists a, p = Resolved a.
Proof.
  induction ps as [|q ps IH]; cbn.
  - destruct p as [a| |]; try congruence. intros _. split; [discriminate|eauto].
  - destruct q as [b| |]; try congruence.
    destruct (Async.allResolved (ps ++ [p])); [|congruence].
    intros _. destruct IH as [H1 H2]; [discriminate|].
    split; [|exact H2]. destruct (Async.allResolved ps); congruence.
Qed.

Section Answers.
Context {St : Type} (api : Request -> St -> Reply * St).

(** A chunk upload resolves only once the service has answered it. *)
Lemma retryLoop_chunk_answered opts txid d o
    (fn : nat -> Async.t St (Attempt (Z * AxiosResponse))) :
  (forall n s,
      fn n s = attempt St (re <- apiCall St api (PostChunk txid o d) ;;
                           Async.ret (o, re)) (fun _ => false) s) ->
  forall left num errs s,
    exists r s' ev,
      retryLoop opts left num errs fn s = (r, s', ev)
      /\ (forall x, r = Resolved x -> existsb (isAnswer txid o) ev = true).
Proof.
  intros Hfn.
  induction left as [|left IH]; intros num errs s;
    cbn [retryLoop]; unfold Async.bind at 1; rewrite Hfn;
    unfold attempt, Async.bind, apiCall;
    destruct (api (PostChunk txid o d) s) as [[res|e] s1];
    cbn -[retryLoop String.eqb Z.eqb].
  - do 3 eexists. split; [reflexivity|]. intros x _.
    cbn -[String.eqb Z.eqb]. rewrite String.eqb_refl, Z.eqb_refl. reflexivity.
  - do 3 eexists. split; [reflexivity|]. discriminate.
  - do 3 eexists. split; [reflexivity|]. intros x _.
    cbn -[String.eqb Z.eqb]. rewrite String.eqb_refl, Z.eqb_refl. reflexivity.
  - destruct (IH (S num) (errs ++ [e]) s1) as (r & s' & ev & Hrun & H).
    rewrite Hrun. do 3 eexists. split; [reflexivity|]. exact H.
Qed.

Lemma promiseFactory_answered txid d o s x :
  Async.outcome (promiseFactory St api txid d o s) = Resolved x ->
  existsb (isAnswer txid o)
    (Async.events (promiseFactory St api txid d o s)) = true.
Proof.
  unfold promiseFactory, newPromiseResolveOnly, retry.
  cbn [retries retryDefaults].
  match goal with
  | |- context [retryLoop retryDefaults 10 1 [] ?fn s] =>
      destruct (retryLoop_chunk_answered retryDefaults txid d o fn
                  (fun _ _ => eq_refl) 10%nat 1%nat [] s)
        as (r & s' & ev & Hrun & H);
      rewrite Hrun
  end.
  destruct r as [y| |]; cbn; try discriminate.
  intros _. apply (H y). reflexivity.
Qed.

Lemma promiseFactory_answers txid d o :
  Emits (fun ev => isPassive ev = true \/ isAnswer txid o ev = true)
    (promiseFactory St api txid d o).
Proof.
  apply Emits_promiseFactory.
  - intros ms. left. reflexivity.
  - intros [res|e]; [right|left; reflexivity].
    cbn. rewrite String.eqb_refl, Z.eqb_refl. reflexivity.
Qed.

(** The loop, for any batch size: while every promise in [processing]
    has resolved, no admitted upload is unanswered. *)
Lemma uploadLoop_settles txid batchSize missing cnks :
  forall offset processing w,
    (Async.allResolved processing <> None -> w = []) ->
    Settles txid w
      (uploadLoop St api txid batchSize missing cnks offset processing)
      (fun ps w' => Async.allResolved ps <> None -> w' = []).
Proof.
  induction cnks as [|chunk rest IH]; intros offset processing w Hw.
  - cbn [uploadLoop]. apply Settles_ret. exact Hw.
  - cbn [uploadLoop]. cbv zeta.
    apply Settles_bind with
      (Q1 := fun p1 w' => Async.allResolved p1 <> None -> w' = []).
    { destruct (Qeq_bool _ batchSize).
      - apply Settles_bind with (Q1 := fun _ w' => w' = []).
        + apply Settles_awaitAll; [exact Hw|reflexivity].
        + intros _ w' ->. apply Settles_ret. reflexivity.
      - apply Settles_ret. exact Hw. }
    intros p1 w1 Hw1.
    apply Settles_bind with
      (Q1 := fun p2 w' => Async.allResolved p2 <> None -> w' = []);
      [|intros p2 w2 Hw2; apply IH; exact Hw2].
    destruct (includes missing offset); [|apply Settles_ret; exact Hw1].
    intros s. unfold Async.bind, Async.emit, Async.spawn, Async.ret.
    pose proof (promiseFactory_answers txid (chunkData chunk) offset s) as Hev.
    pose proof (promiseFactory_answered txid (chunkData chunk) offset s) as Hans.
    destruct (promiseFactory St api txid (chunkData chunk) offset s)
      as [[p s1] l].
    cbn in Hev, Hans |- *. rewrite app_nil_r.
    split; [apply (answers_settledFrom txid offset); exact Hev|].
    intros Hall. apply allResolved_app in Hall as [Hp1 [a ->]].
    rewrite (Hw1 Hp1).
    apply answers_unansweredFrom; [exact Hev|]. apply (Hans a). reflexivity.
Qed.

Lemma apiCall_passive q :
  (forall txid o d, q <> PostChunk txid o d) ->
  Emits (fun ev => isPassive ev = true) (apiCall St api q).
Proof.
  intros Hq. apply Emits_apiCall. intros r.
  destruct q as [t sz|t o d|t|raw]; try reflexivity.
  exfalso. exact (Hq t o d eq_refl).
Qed.

(** In a run of the chunked upload every [Promise.all] that comes to an
    end finds every admitted upload answered. *)
Lemma chunked_settles dataStream txid size chunkSize batchSize s :
  settledFrom txid []
    (Async.events
       (chunkedTransactionUploader St api dataStream txid size chunkSize
          batchSize s)) = true.
Proof.
  assert (H : Settles txid []
                (chunkedTransactionUploader St api dataStream txid size
                   chunkSize batchSize) (fun _ _ => True));
    [|exact (proj1 (H s))].
  unfold chunkedTransactionUploader.
  destruct (_ || _); [apply Settles_throw|].
  destruct (Qlt_bool batchSize 1); [apply Settles_throw|].
  apply Settles_bind with (Q1 := fun _ w => w = []).
  { apply Settles_passive; [|reflexivity].
    apply apiCall_passive. discriminate. }
  intros getres w ->.
  destruct (status getres =? 201); [apply Settles_ret; exact I|].
  destruct (checkAndThrow getres "Getting chunk info" []);
    [apply Settles_throw|].
  destruct (data getres); try apply Settles_throw.
  apply Settles_bind with
    (Q1 := fun ps w => Async.allResolved ps <> None -> w = []).
  { apply uploadLoop_settles. reflexivity. }
  intros ps w Hw.
  apply Settles_bind with (Q1 := fun _ w => w = []).
  { apply Settles_awaitAll; [exact Hw|reflexivity]. }
  intros _ w' ->.
  apply Settles_bind with (Q1 := fun _ w => w = []).
  { apply Settles_passive; [|reflexivity].
    apply apiCall_passive. discriminate. }
  intros fin w' ->.
  destruct (status fin =? 402); [apply Settles_throw|].
  destruct (checkAndThrow fin "Finalising upload" [201]);
    [apply Settles_throw|apply Settles_ret; exact I].
Qed.

(** So at the end of a [Promise.all], each upload admitted before it has
    been answered by the service. *)
Lemma chunked_awaits_answers dataStream txid size chunkSize batchSize s
    pre n rest o len :
  Async.events
    (chunkedTransactionUploader St api dataStream txid size chunkSize
       batchSize s) = pre ++ EvAwaitAll n true :: rest ->
  In (EvAdmit o len) pre ->
  exists d res, In (EvRequest (PostChunk txid o d) (Returns res)) pre.
Proof.
  intros Hlog Hadm.
  pose proof (chunked_settles dataStream txid size chunkSize batchSize s) as H.
  rewrite Hlog, settledFrom_app in H. apply andb_prop in H as [_ H].
  cbn [settledFrom] in H.
  destruct (unansweredFrom txid [] pre) as [|o' w'] eqn:Hun; [|discriminate].
  destruct (unansweredFrom_complete txid pre [] o
              (or_intror (ex_intro _ len Hadm))) as [Hin|Hans];
    [rewrite Hun in Hin; destruct Hin|exact Hans].
Qed.
End Answers.

Section Claims.
Context {St : Type} (api : Request -> St -> Reply * St).

(** C4 (amended). With a batch size that is an integer [b >= 1], at
    every point of a run of [chunkedTransactionUploader] at most [b]
    chunk uploads are in flight; an upload is admitted only while fewer
    than [b] are in flight; each [Promise.all] awaits all of those in
    flight; once [b] are in flight, a [Promise.all] over all of them has
    come to an end before another upload is admitted; and when a
    [Promise.all] comes to an end, the service has answered every upload
    admitted before it. *)
Theorem chunked_in_flight_within_batchSize :
  forall dataStream txid size chunkSize batchSize b s pre post,
    (batchSize == inject_Z b)%Q -> 1 <= b ->
    Async.events
      (chunkedTransactionUploader St api dataStream txid size chunkSize
         batchSize s)
      = pre ++ post ->
    Z.of_nat (inFlight pre) <= b
    /\ (forall o len rest, post = EvAdmit o len :: rest ->
          Z.of_nat (inFlight pre) < b)
    /\ (forall n settled rest,
          post = EvAwaitAll n settled :: rest -> n = inFlight pre)
    /\ (forall mid o len rest,
          post = mid ++ EvAdmit o len :: rest ->
          Z.of_nat (inFlight pre) = b ->
          exists l1 l2, mid = l1 ++ EvAwaitAll (inFlight pre) true :: l2)
    /\ (forall n rest o len,
          post = EvAwaitAll n true :: rest ->
          In (EvAdmit o len) pre ->
          exists d res,
            In (EvRequest (PostChunk txid o d) (Returns res)) pre).
Proof.
  intros dataStream txid size chunkSize batchSize b s pre post Hq Hb Hlog.
  destruct (chunked_windowed api dataStream txid size chunkSize batchSize b
              Hq Hb s) as [Hw _].
  rewrite Hlog in Hw.
  destruct (windowedFrom_prefix b pre O post Hw ltac:(cbn; lia))
    as (H1 & H2 & H3).
  split; [exact H1|]. split; [exact H2|]. split; [exact H3|]. split.
  - intros mid o len rest -> Hfull.
    rewrite windowedFrom_app in Hw. apply andb_prop in Hw as [_ Hw].
    exact (windowedFrom_full_awaits b mid _ o len rest Hw Hfull).
  - intros n rest o len -> Hadm.
    exact (chunked_awaits_answers api dataStream txid size chunkSize
             batchSize s pre n rest o len Hlog Hadm).
Qed.

(** C9. [chunkedTransactionUploader] throws an error about its
    configuration, sends no request and leaves the service as it was,
    whenever [chunkSize < 1000000], [chunkSize > 190000000] or
    [batchSize < 1]. *)
Theorem chunked_rejects_invalid_configuration :
  forall dataStream txid size chunkSize batchSize s,
    chunkSize < 1000000 \/ 190000000 < chunkSize \/ (batchSize < 1)%Q ->
    exists e,
      chunkedTransactionUploader St api dataStream txid size chunkSize
        batchSize s = (Rejected e, s, [])
      /\ (message e
            = "Invalid chunk size - must be betweem 100,000 and 190,000,000 bytes"
          \/ message e = "batch size too small! must be >=1").
Proof.
  intros dataStream txid size chunkSize batchSize s H.
  unfold chunkedTransactionUploader.
  destruct ((chunkSize <? 1000000) || (190000000 <? chunkSize)) eqn:Hc.
  - eexists. split; [reflexivity|]. left. reflexivity.
  - apply orb_false_elim in Hc as [H1 H2].
    apply Z.ltb_ge in H1, H2.
    destruct (Qlt_bool batchSize 1) eqn:Hb.
    + eexists. split; [reflexivity|]. right. reflexivity.
    + destruct H as [H|[H|H]]; [lia|lia|].
      rewrite (Qlt_bool_true _ _ H) in Hb. discriminate.
Qed.

(** C7. [transactionUploader] hands the transaction to the chunked
    uploader exactly when the force-chunking flag is set or the raw
    length exceeds 50,000,000 bytes: the run is then the run of
    [chunkedTransactionUploader] with the default chunk and batch sizes,
    it begins with the presence query and never posts to the direct
    endpoint.  Otherwise, and so for a length of exactly 50,000,000 with
    the flag unset, the run is a single direct POST of the raw bytes. *)
Theorem transactionUploader_chooses_path :
  forall force transaction s,
    let raw := getRaw transaction in
    let len := byteLength raw in
    let r := transactionUploader St api force transaction s in
    (force = true \/ 50000000 < len ->
       Async.events r
         = Async.events (chunkedTransactionUploader St api raw
                           (id transaction) len 25000000 5 s)
       /\ (exists reply rest,
             Async.events r
             = EvRequest (GetChunkInfo (id transaction) len) reply :: rest)
       /\ Forall (fun ev => isDirectPost ev = false) (Async.events r))
    /\ (force = false -> len <= 50000000 ->
          exists reply,
            api (PostTx raw) s = (reply, Async.final r)
            /\ Async.events r = [EvRequest (PostTx raw) reply]).
Proof.
  intros force transaction s raw len r. subst r. split.
  - intros Hpath.
    assert (Hcond : force || (50000000 <? len) = true).
    { destruct Hpath as [->|H]; [reflexivity|].
      apply orb_true_iff. right. apply Z.ltb_lt. exact H. }
    assert (Hev : Async.events (transactionUploader St api force transaction s)
              = Async.events (chunkedTransactionUploader St api raw
                                (id transaction) len 25000000 5 s)).
    { unfold transactionUploader. fold raw. fold len. rewrite Hcond.
      unfold Async.bind.
      destruct (chunkedTransactionUploader St api raw (id transaction) len
                  25000000 5 s) as [[o s1] l1].
      destruct o as [res| |]; cbn; try reflexivity.
      destruct (status res =? 201); [cbn; apply app_nil_r|].
      destruct (status res =? 402); [cbn; apply app_nil_r|].
      destruct (400 <=? status res); cbn; apply app_nil_r. }
    rewrite Hev. split; [reflexivity|]. split.
    + apply chunked_starts_with_query;
        [lia|apply Qle_bool_iff; reflexivity].
    + apply chunked_no_direct_post.
  - intros -> Hlen.
    unfold transactionUploader. fold raw. fold len.
    test_false (50000000 <? len).
    cbn [orb]. unfold Async.bind, apiCall.
    destruct (api (PostTx raw) s) as [[res|e] s1].
    + exists (Returns res).
      destruct (status res =? 201); [cbn; auto|].
      destruct (status res =? 402); [cbn; auto|].
      destruct (400 <=? status res); cbn; auto.
    + exists (Throws e). cbn. auto.
Qed.

(** C8. On the direct path, when the POST comes back with a response:
    status 201 resolves with the response whose body is replaced by the
    transaction's id; status 402 throws the insufficient-funds error;
    any other status of 400 or more throws an error that carries the
    status and the status text; any remaining status resolves with the
    response as it came. *)
Theorem direct_upload_maps_status :
  forall transaction s res s1,
    byteLength (getRaw transaction) <= 50000000 ->
    api (PostTx (getRaw transaction)) s = (Returns res, s1) ->
    let r := Async.outcome (transactionUploader St api false transaction s) in
    (status res = 201 ->
       r = Resolved (setData res (DataId (id transaction))))
    /\ (status res = 402 -> r = Rejected {| message := notEnoughFunds |})
    /\ (400 <= status res -> status res <> 402 ->
          r = Rejected {| message :=
                ("whilst uploading DataItem: " ++ string_of_Z (status res)
                   ++ " " ++ statusText res)%string |})
    /\ (status res < 400 -> status res <> 201 -> r = Resolved res).
Proof.
  intros transaction s res s1 Hlen Hapi r. subst r.
  unfold transactionUploader.
  test_false (50000000 <? byteLength (getRaw transaction)).
  cbn [orb]. unfold Async.bind, apiCall. rewrite Hapi.
  repeat split.
  - intros ->. reflexivity.
  - intros ->. reflexivity.
  - intros H400 H402.
    test_false (status res =? 201).
    test_false (status res =? 402).
    test_true (400 <=? status res).
    reflexivity.
  - intros H400 H201.
    test_false (status res =? 201).
    test_false (status res =? 402).
    test_false (400 <=? status res).
    reflexivity.
Qed.

End Claims.

Section BatchClaims.
Context {St : Type} (api : Request -> St -> Reply * St).
Context (force : bool) (createData : Buffer -> DataItem)
  (bufferFrom : string -> Buffer) (Any : Type).

(** C6 (amended). [concurrentUploader] starts its pool with the given
    concurrency when that is 1 or more, which is then [max(concurrency, 1)],
    and with 5 when the concurrency is below 1. *)
Theorem concurrentUploader_pool_width :
  forall data concurrency rp lf s,
    let r := concurrentUploader St api force createData bufferFrom Any data
               concurrency rp lf s in
    (1 <= concurrency ->
       hd_error (Async.events r) = Some (EvPool (Z.max concurrency 1)))
    /\ (concurrency < 1 -> hd_error (Async.events r) = Some (EvPool 5)).
Proof.
  intros data concurrency rp lf s r. subst r.
  unfold concurrentUploader, Async.bind, Async.emit, Async.ret.
  destruct (poolProcess St
              (processTask St api force createData bufferFrom Any concurrency
                 rp lf) data 0 [] [] s) as [[o s1] l1].
  split; intros Hc.
  - test_true (1 <=? concurrency).
    rewrite Z.max_l by lia. destruct o; reflexivity.
  - test_false (1 <=? concurrency).
    destruct o; reflexivity.
Qed.

(** C10 (amended). When [concurrentUploader] is called without a
    [logFunction]: an attempt on an item whose index [i] satisfies
    [i % concurrency == 0] throws "logFunction is not a function" once the
    upload of the item has resolved; the first item has such an index for
    every concurrency other than zero, and no item has one when the
    concurrency is zero; the task of such an item never resolves; and in
    every batch that returns, each such item has an error in the returned
    [errors] and contributes nothing to [results]. *)
Theorem missing_logFunction_turns_items_into_errors :
  forall data concurrency rp,
    (forall item i s res s1 l,
        remIsZero i concurrency = true ->
        processItem St api force createData bufferFrom item s
          = (Resolved res, s1, l) ->
        Async.outcome
          (processAttempt St api force createData bufferFrom Any concurrency
             rp None item i s)
        = Resolved (Threw {| message := "logFunction is not a function" |}))
    /\ (concurrency <> 0 -> remIsZero 0 concurrency = true)
    /\ (concurrency = 0 -> forall i, remIsZero i concurrency = false)
    /\ (forall item i s v,
          remIsZero i concurrency = true ->
          Async.outcome
            (processTask St api force createData bufferFrom Any concurrency
               rp None item i s) <> Resolved v)
    /\ (forall s br,
          Async.outcome
            (concurrentUploader St api force createData bufferFrom Any data
               concurrency rp None s) = Resolved br ->
          exists per,
            List.length per = List.length data
            /\ errors br = errorsOf per
            /\ results br = resultsOf per
            /\ forall k, (k < List.length data)%nat ->
                 remIsZero (Z.of_nat k) concurrency = true ->
                 exists e, nth_error per k = Some (Some e)).
Proof.
  intros data concurrency rp. split; [|split; [|split; [|split]]].
  - intros item i s res s1 l Hi Hitem.
    rewrite (processAttempt_without_logFunction api force createData
               bufferFrom Any concurrency rp item i s res s1 l Hi Hitem).
    reflexivity.
  - intros Hc. unfold remIsZero.
    test_false (concurrency =? 0).
    rewrite Z.rem_0_l by exact Hc. reflexivity.
  - intros -> i. reflexivity.
  - intros item i s v Hi. apply processTask_never_resolves. exact Hi.
  - intros s br. unfold concurrentUploader.
    unfold Async.bind, Async.emit, Async.ret.
    destruct (poolProcess St
                (processTask St api force createData bufferFrom Any
                   concurrency rp None) data 0 [] [] s)
      as [[o s1] l1] eqn:Hpool.
    destruct o as [[errs res]| |]; cbn; try discriminate.
    intros [= <-]. cbn.
    destruct (poolProcess_resolved _
                (fun i => remIsZero i concurrency = true)
                (fun item i s v Hi =>
                   processTask_never_resolves api force createData bufferFrom
                     Any concurrency rp item i s v Hi)
                data 0 [] [] s errs res
                ltac:(rewrite Hpool; reflexivity))
      as (per & Hlen & He & Hr & _ & Hk).
    exists per. repeat split; auto.
Qed.
End BatchClaims.

(** ** The claims on concrete runs *)

Section ChunkResponses.
Context {St : Type} (api : Request -> St -> Reply * St).

(** Whatever the status of the response to a chunk upload, the promise of
    that chunk resolves with it after this one attempt. *)
Lemma promiseFactory_resolves_with_any_response txid d o s res s1 :
  api (PostChunk txid o d) s = (Returns res, s1) ->
  promiseFactory St api txid d o s
  = (Resolved (o, res), s1, [EvRequest (PostChunk txid o d) (Returns res)]).
Proof.
  intros Hapi.
  unfold promiseFactory, newPromiseResolveOnly, retry. cbn [retries retryDefaults retryLoop].
  unfold Async.bind, attempt, apiCall. rewrite Hapi. reflexivity.
Qed.

(** When every attempt throws, [retry] ends in a rejection. *)
Lemma retryLoop_all_throw {A} opts (fn : nat -> Async.t St (Attempt A)) :
  (forall n s, exists e, Async.outcome (fn n s) = Resolved (Threw e)) ->
  forall left num errs s,
    exists e, Async.outcome (retryLoop opts left num errs fn s) = Rejected e.
Proof.
  intros Hfn. induction left as [|left IH]; intros num errs s;
    cbn [retryLoop]; unfold Async.bind at 1;
    destruct (Hfn num s) as [e He];
    destruct (fn num s) as [[o s1] l1]; cbn in He; subst o.
  - eexists. reflexivity.
  - unfold Async.bind. cbn [Async.emit].
    destruct (IH (S num) (errs ++ [e]) s1) as [e' He'].
    destruct (retryLoop opts left (S num) (errs ++ [e]) fn s1)
      as [[o2 s2] l2]. cbn in He' |- *. eauto.
Qed.

(** A chunk whose every upload attempt throws leaves a promise that never
    settles. *)
Lemma promiseFactory_pending_when_posts_throw txid d o :
  (forall s, exists e s1, api (PostChunk txid o d) s = (Throws e, s1)) ->
  forall s, Async.outcome (promiseFactory St api txid d o s) = Pending.
Proof.
  intros Hapi s. unfold promiseFactory, newPromiseResolveOnly, retry.
  match goal with
  | |- context [retryLoop ?opts ?k ?num ?errs ?fn s] =>
      assert (Hfn : forall n s0,
                 exists e, Async.outcome (fn n s0) = Resolved (Threw e));
      [|destruct (retryLoop_all_throw opts fn Hfn k num errs s) as [e He];
        destruct (retryLoop opts k num errs fn s) as [[r s1] l];
        cbn in He; subst r; reflexivity]
  end.
  intros n s0. unfold attempt, Async.bind, apiCall.
  destruct (Hapi s0) as (e & s1 & ->). eexists. reflexivity.
Qed.
End ChunkResponses.

(** C2. The code at the failing input.  On an account without balance the
    chunk at offset 0 is answered 402 at its one attempt, and the chunk at
    offset 1000000 and the final call are sent all the same; the error is
    thrown for the 402 of the final call.  When only the chunk at offset 0
    is answered 402 the upload resolves with the response to the final
    call. *)
Theorem chunk_402_does_not_abort_upload :
  wire (Async.events (twoChunks brokeService))
    = [WGet 2000000 (Some 200); WChunk 0 1000000 (Some 402);
       WChunk 1000000 1000000 (Some 402); WFinish (Some 402)]
  /\ chunkAttempts 0 (Async.events (twoChunks brokeService)) = 1%nat
  /\ Async.outcome (twoChunks brokeService)
       = Rejected {| message := notEnoughFunds |}
  /\ wire (Async.events (twoChunks unpaidChunkService))
       = [WGet 2000000 (Some 200); WChunk 0 1000000 (Some 402);
          WChunk 1000000 1000000 (Some 200); WFinish (Some 201)]
  /\ Async.outcome (twoChunks unpaidChunkService)
       = Resolved {| status := 201; statusText := "Created"; data := DataNone |}.
Proof. repeat split; vm_compute; reflexivity. Qed.

(** C3. The code at the failing input.  While the connection drops, the
    one chunk is posted 11 times, the delays between the attempts double
    from 1000 ms up to 512000 ms, and the upload never settles. *)
Theorem failed_chunk_upload_never_settles :
  chunkAttempts 0 (Async.events downRun) = 11%nat
  /\ backoffs (Async.events downRun)
       = [1000; 2000; 4000; 8000; 16000; 32000; 64000; 128000; 256000; 512000]
  /\ Async.outcome downRun = Pending.
Proof. repeat split; vm_compute; reflexivity. Qed.

(** C5. The code at the failing input.  A batch whose one item goes
    through the chunked upload while the connection drops never returns:
    its three chunk uploads stay in flight after 11 attempts each, and the
    batch neither resolves with an error recorded nor rejects. *)
Theorem batch_never_returns_on_failed_chunk :
  Async.outcome downBatch = Pending
  /\ chunkAttempts 0 (Async.events downBatch) = 11%nat
  /\ admitted (Async.events downBatch)
       = [(0, 25000000); (25000000, 25000000); (50000000, 10000000)]
  /\ inFlight (Async.events downBatch) = 3%nat.
Proof. repeat split; vm_compute; reflexivity. Qed.

(** ** Instances of the claims *)

(** C4 on 2,500,000 bytes in chunks of 1,000,000 with batch size 2: two
    uploads are admitted, a [Promise.all] over the two comes to an end,
    and the third is admitted; after the first five events two uploads
    are in flight, and the one at 1,000,000 has its answer before the
    [Promise.all] that follows. *)
Lemma chunked_in_flight_within_batchSize_witness :
  filter isControl (Async.events (threeChunks healthyService))
  = [EvAdmit 0 1000000; EvAdmit 1000000 1000000; EvAwaitAll 2 true;
     EvAdmit 2000000 500000; EvAwaitAll 1 true]
  /\ 1 <= 2
  /\ Z.of_nat (inFlight (firstn 5 (Async.events (threeChunks healthyService))))
     <= 2
  /\ exists d res,
       In (EvRequest (PostChunk "tx" 1000000 d) (Returns res))
          (firstn 5 (Async.events (threeChunks healthyService))).
Proof.
  split; [vm_compute; reflexivity|]. split; [lia|].
  destruct (chunked_in_flight_within_batchSize healthyService
              (zeros 2500000) "tx" 2500000 1000000 2 2 tt
              (firstn 5 (Async.events (threeChunks healthyService)))
              (skipn 5 (Async.events (threeChunks healthyService))))
    as (Hle & _ & _ & _ & Hanswered).
  - reflexivity.
  - lia.
  - vm_compute. reflexivity.
  - split; [exact Hle|].
    refine (Hanswered 2%nat _ 1000000 1000000 _ _).
    + vm_compute. reflexivity.
    + vm_compute. auto 10.
Defined.

(** C4 as stated fails for a batch size of 2.5, which is not below 1: the
    length of [processing] never equals it, so the four uploads are
    admitted with no [Promise.all] between them and four are in flight. *)
Lemma in_flight_exceeds_fractional_batchSize :
  (1 <= 2.5)%Q
  /\ filter isControl (Async.events (fourChunks 2.5))
     = [EvAdmit 0 1000000; EvAdmit 1000000 1000000; EvAdmit 2000000 1000000;
        EvAdmit 3000000 1000000; EvAwaitAll 4 true]
  /\ exists pre post,
       Async.events (fourChunks 2.5) = pre ++ post
       /\ inFlight pre = 4%nat
       /\ (2.5 < inject_Z (Z.of_nat (inFlight pre)))%Q.
Proof.
  split; [apply Qle_bool_iff; reflexivity|].
  split; [vm_compute; reflexivity|].
  exists (firstn 9 (Async.events (fourChunks 2.5))),
         (skipn 9 (Async.events (fourChunks 2.5))).
  split; [symmetry; apply firstn_skipn|].
  split; [vm_compute; reflexivity|].
  vm_compute. reflexivity.
Qed.

(** C9 for a chunk size of 500,000 and for a batch size of 0. *)
Lemma chunked_rejects_invalid_configuration_witness :
  (exists e,
      chunkedTransactionUploader unit healthyService (zeros 2000000) "tx"
        2000000 500000 5 tt = (Rejected e, tt, [])
      /\ (message e
            = "Invalid chunk size - must be betweem 100,000 and 190,000,000 bytes"
          \/ message e = "batch size too small! must be >=1"))
  /\ (exists e,
        chunkedTransactionUploader unit healthyService (zeros 2000000) "tx"
          2000000 1000000 0 tt = (Rejected e, tt, [])
        /\ (message e
              = "Invalid chunk size - must be betweem 100,000 and 190,000,000 bytes"
            \/ message e = "batch size too small! must be >=1")).
Proof.
  split; apply chunked_rejects_invalid_configuration;
    [left; lia | right; right; reflexivity].
Defined.

(** C7 at exactly 50,000,000 bytes, and one byte above. *)
Lemma transactionUploader_chooses_path_witness :
  (exists reply,
      healthyService (PostTx (zeros 50000000)) tt
        = (reply,
           Async.final (transactionUploader unit healthyService false
                          (signAs "tx" (zeros 50000000)) tt))
      /\ Async.events (transactionUploader unit healthyService false
                         (signAs "tx" (zeros 50000000)) tt)
         = [EvRequest (PostTx (zeros 50000000)) reply])
  /\ (exists reply rest,
        Async.events (transactionUploader unit healthyService false
                        (signAs "tx" (zeros 50000001)) tt)
        = EvRequest (GetChunkInfo "tx" 50000001) reply :: rest).
Proof.
  split.
  - apply (proj2 (transactionUploader_chooses_path healthyService false
                    (signAs "tx" (zeros 50000000)) tt));
      [reflexivity | cbn; lia].
  - apply (proj1 (transactionUploader_chooses_path healthyService false
                    (signAs "tx" (zeros 50000001)) tt)).
    right. cbn. lia.
Defined.

(** C8 for a response with status 201. *)
Lemma direct_upload_maps_status_witness :
  Async.outcome (transactionUploader unit healthyService false
                   (signAs "tx" (zeros 1000)) tt)
  = Resolved {| status := 201; statusText := "Created"; data := DataId "tx" |}.
Proof.
  refine (proj1 (direct_upload_maps_status healthyService
                   (signAs "tx" (zeros 1000)) tt
                   {| status := 201; statusText := "Created";
                      data := DataNone |} tt _ _) _).
  - cbn. lia.
  - reflexivity.
  - reflexivity.
Defined.



(** C6 for a concurrency of 3. *)
Lemma concurrentUploader_pool_width_witness :
  hd_error (Async.events (smallBatch 3)) = Some (EvPool (Z.max 3 1)).
Proof.
  apply (proj1 (concurrentUploader_pool_width healthyService false
                  (signAs "tx") bufferOfString unit
                  [ItemString "a"; ItemString "b"; ItemString "c"] 3 None None
                  tt)).
  lia.
Defined.

(** C6 as stated fails for a concurrency of 0: the pool is 5 wide, not
    [max(0, 1)] wide. *)
Lemma pool_width_for_concurrency_zero :
  hd_error (Async.events (smallBatch 0)) = Some (EvPool 5)
  /\ hd_error (Async.events (smallBatch 0)) <> Some (EvPool (Z.max 0 1)).
Proof. split; vm_compute; [reflexivity|discriminate]. Qed.

(** C10 on three short items with concurrency 2: the items 0 and 2 are
    errors and only item 1 is a result, although the service accepted
    every upload. *)
Lemma missing_logFunction_turns_items_into_errors_witness :
  Async.outcome (smallBatch 2)
    = Resolved {| errors := [ {| message := "logFunction is not a function" |};
                              {| message := "logFunction is not a function" |} ];
                  results := [undefined] |}
  /\ exists per,
       List.length per = 3%nat
       /\ [ {| message := "logFunction is not a function" |};
            {| message := "logFunction is not a function" |} ] = errorsOf per
       /\ [undefined] = resultsOf per
       /\ forall k, (k < 3)%nat -> remIsZero (Z.of_nat k) 2 = true ->
            exists e, nth_error per k = Some (Some e).
Proof.
  split; [vm_compute; reflexivity|].
  apply (proj2 (proj2 (proj2 (proj2
           (missing_logFunction_turns_items_into_errors healthyService false
              (signAs "tx") bufferOfString unit
              [ItemString "a"; ItemString "b"; ItemString "c"] 2 None))))
           tt
           {| errors := [ {| message := "logFunction is not a function" |};
                          {| message := "logFunction is not a function" |} ];
              results := [undefined] |}).
  vm_compute. reflexivity.
Defined.

(** C10 as stated fails for a concurrency of 0: [0 % 0] is [NaN], so the
    missing [logFunction] is never called, and the first item is a
    result like the other two. *)
Lemma first_item_is_a_result_for_concurrency_zero :
  remIsZero 0 0 = false
  /\ Async.outcome (smallBatch 0)
     = Resolved {| errors := [];
                   results := [undefined; undefined; undefined] |}.
Proof. split; vm_compute; reflexivity. Qed.

(** * Further properties of the code *)

(** ** The manifest *)

(** ** Manifests *)

Lemma getOwn_setOwn_same {V} k (v : V) props :
  getOwn k (setOwn k v props) = Some v.
Proof.
  induction props as [|[k' v'] rest IH]; cbn.
  - rewrite String.eqb_refl. reflexivity.
  - destruct (String.eqb k' k) eqn:E; cbn.
    + rewrite String.eqb_refl. reflexivity.
    + rewrite E. exact IH.
Qed.

Lemma getOwn_setOwn_other {V} k k' (v : V) props :
  k <> k' -> getOwn k' (setOwn k v props) = getOwn k' props.
Proof.
  intros Hk. induction props as [|[k0 v0] rest IH]; cbn.
  - destruct (String.eqb_spec k k'); [contradiction|reflexivity].
  - destruct (String.eqb_spec k0 k) as [->|Hk0]; cbn.
    + destruct (String.eqb_spec k k'); [contradiction|reflexivity].
    + destruct (String.eqb_spec k0 k'); [reflexivity|exact IH].
Qed.

Lemma getOwn_setProp {V} (o : JsObject V) k (v : V) k' :
  k' <> "__proto__" ->
  getOwn k' (own (setProp o k v))
  = if String.eqb k k' then Some v else getOwn k' (own o).
Proof.
  intros Hk'. unfold setProp.
  destruct (String.eqb_spec k "__proto__") as [->|Hk]; cbn [own].
  - destruct (String.eqb_spec "__proto__" k'); [congruence|reflexivity].
  - destruct (String.eqb_spec k k') as [->|Hne].
    + apply getOwn_setOwn_same.
    + apply getOwn_setOwn_other. exact Hne.
Qed.

Lemma getOwn_proto_setProp {V} (o : JsObject V) k (v : V) :
  getOwn "__proto__" (own (setProp o k v)) = getOwn "__proto__" (own o).
Proof.
  unfold setProp.
  destruct (String.eqb_spec k "__proto__") as [->|Hk]; cbn [own].
  - reflexivity.
  - apply getOwn_setOwn_other. exact Hk.
Qed.

Lemma mapGet_not_In k items :
  ~ In k (map fst items) -> mapGet k items = None.
Proof.
  induction items as [|[k' v] rest IH]; cbn; [reflexivity|].
  intros H. destruct (String.eqb_spec k' k); [tauto|]. apply IH. tauto.
Qed.

(** The loop leaves under each key other than [__proto__] the entry of the
    map, and what was there before for a key the map does not hold. *)
Lemma fillPaths_getOwn entries : forall o k,
  NoDup (map fst entries) -> k <> "__proto__" ->
  getOwn k (own (fillPaths entries o))
  = match mapGet k entries with
    | Some v => Some {| pathId := v |}
    | None => getOwn k (own o)
    end.
Proof.
  induction entries as [|[k0 v0] rest IH]; intros o k Hnd Hk; [reflexivity|].
  cbn [fillPaths mapGet]. cbn in Hnd. inversion Hnd as [|? ? Hnotin Hnd']; subst.
  rewrite IH by assumption. rewrite getOwn_setProp by exact Hk.
  destruct (String.eqb_spec k0 k) as [->|Hne].
  - rewrite (mapGet_not_In _ _ Hnotin). reflexivity.
  - reflexivity.
Qed.

Lemma fillPaths_no_own_proto entries : forall o,
  getOwn "__proto__" (own (fillPaths entries o)) = getOwn "__proto__" (own o).
Proof.
  induction entries as [|[k0 v0] rest IH]; intros o; [reflexivity|].
  cbn [fillPaths]. rewrite IH. apply getOwn_proto_setProp.
Qed.

(** The prototype after the loop: the entry of the key [__proto__] when
    the map holds it. *)
Lemma fillPaths_proto entries : forall o,
  NoDup (map fst entries) ->
  proto (fillPaths entries o)
  = match mapGet "__proto__" entries with
    | Some v => Some {| pathId := v |}
    | None => proto o
    end.
Proof.
  induction entries as [|[k0 v0] rest IH]; intros o Hnd; [reflexivity|].
  cbn [fillPaths mapGet]. cbn in Hnd. inversion Hnd as [|? ? Hnotin Hnd']; subst.
  rewrite IH by assumption. unfold setProp.
  destruct (String.eqb_spec k0 "__proto__") as [->|Hne]; cbn [proto].
  - rewrite (mapGet_not_In _ _ Hnotin). reflexivity.
  - reflexivity.
Qed.

(** X1. [generateManifest] rejects exactly when [indexFile] is a
    non-empty string that is not a key of [items], and then with the
    message "Unable to access item: " followed by that string; an
    [indexFile] that is left out or empty never makes it reject. *)
Theorem generateManifest_rejects_missing_index :
  forall items indexFile,
    (forall e, generateManifest items indexFile = Rejected e ->
       exists f, indexFile = Some f /\ f <> "" /\ mapGet f items = None
                 /\ message e = ("Unable to access item: " ++ f)%string)
    /\ (forall f, indexFile = Some f -> f <> "" -> mapGet f items = None ->
          generateManifest items indexFile
          = Rejected {| message := ("Unable to access item: " ++ f)%string |})
    /\ generateManifest items indexFile <> Pending.
Proof.
  intros items indexFile. unfold generateManifest, truthyString, mapHas.
  split; [|split].
  - intros e. destruct indexFile as [f|]; [|discriminate].
    destruct (String.eqb_spec f ""); cbn; [discriminate|].
    destruct (mapGet f items) eqn:Hget; cbn; [discriminate|].
    intros [= <-]. exists f. auto.
  - intros f -> Hf Hget.
    destruct (String.eqb_spec f ""); [contradiction|]. cbn.
    rewrite Hget. reflexivity.
  - destruct indexFile as [f|]; [|discriminate].
    destruct (String.eqb f ""); cbn; [discriminate|].
    destruct (mapGet f items); cbn; discriminate.
Qed.

(** X2. In the manifest of a map with distinct keys the own paths are the
    items: under every key other than [__proto__] the path is the entry
    [{ id }] of that item, or missing when the map has no such key.  An
    item under the key [__proto__] becomes no own path; it replaces the
    prototype of [paths]. *)
Theorem generateManifest_paths_are_the_items :
  forall items indexFile m,
    NoDup (map fst items) ->
    generateManifest items indexFile = Resolved m ->
    (forall k, k <> "__proto__" ->
       getOwn k (own (paths m)) = option_map mkPathEntry (mapGet k items))
    /\ getOwn "__proto__" (own (paths m)) = None
    /\ proto (paths m) = option_map mkPathEntry (mapGet "__proto__" items).
Proof.
  intros items indexFile m Hnd Hm.
  assert (Hp : paths m = fillPaths items {| own := []; proto := None |}).
  { unfold generateManifest in Hm. destruct indexFile as [f|].
    - destruct (truthyString (Some f)).
      + destruct (negb (mapHas f items)); [discriminate|].
        injection Hm as <-. reflexivity.
      + injection Hm as <-. reflexivity.
    - injection Hm as <-. reflexivity. }
  rewrite Hp. split; [|split].
  - intros k Hk. rewrite fillPaths_getOwn by assumption.
    destruct (mapGet k items); reflexivity.
  - rewrite fillPaths_no_own_proto. reflexivity.
  - rewrite fillPaths_proto by assumption.
    destruct (mapGet "__proto__" items); reflexivity.
Qed.

(** X3. A manifest is "arweave/paths" version "0.1.0"; it has an index
    exactly when [indexFile] is a non-empty string, the index path is
    that string, it is a key of [items], and unless it is [__proto__] the
    manifest has the path of that item. *)
Theorem generateManifest_index_names_an_item :
  forall items indexFile m,
    NoDup (map fst items) ->
    generateManifest items indexFile = Resolved m ->
    manifest m = "arweave/paths" /\ version m = "0.1.0"
    /\ (index m = None <-> truthyString indexFile = false)
    /\ (forall f, index m = Some {| path := f |} ->
          indexFile = Some f
          /\ exists v, mapGet f items = Some v
                       /\ (f <> "__proto__" ->
                           getOwn f (own (paths m)) = Some {| pathId := v |})).
Proof.
  intros items indexFile m Hnd Hm. unfold generateManifest in Hm.
  destruct indexFile as [f|].
  - destruct (truthyString (Some f)) eqn:Ht.
    + unfold mapHas in Hm. destruct (mapGet f items) as [v|] eqn:Hget;
        cbn in Hm; [|discriminate].
      injection Hm as <-. cbn [manifest version index paths].
      split; [reflexivity|]. split; [reflexivity|].
      split; [split; discriminate|].
      intros f' Hf'. injection Hf' as <-. split; [reflexivity|].
      exists v. split; [exact Hget|].
      intros Hf. rewrite fillPaths_getOwn by assumption.
      rewrite Hget. reflexivity.
    + injection Hm as <-. cbn [manifest version index paths].
      repeat split; try discriminate; auto.
  - injection Hm as <-. cbn [manifest version index paths].
    repeat split; try discriminate; auto.
Qed.

(** ** Algorand endpoints and transactions *)

(** ** The Algorand endpoints *)

Lemma sliceTo_sliceFrom n : forall s, (sliceTo n s ++ sliceFrom n s)%string = s.
Proof.
  induction n as [|n IH]; intros s; [reflexivity|].
  destruct s as [|c rest]; [reflexivity|]. cbn. rewrite IH. reflexivity.
Qed.

Lemma length_append (s1 s2 : string) :
  String.length (s1 ++ s2)%string = (String.length s1 + String.length s2)%nat.
Proof. induction s1 as [|c s1 IH]; cbn; [reflexivity|]. rewrite IH. reflexivity. Qed.

Lemma length_sliceTo n : forall s,
  String.length (sliceTo n s) = Nat.min n (String.length s).
Proof.
  induction n as [|n IH]; intros s; [reflexivity|].
  destruct s as [|c rest]; [reflexivity|]. cbn. rewrite IH. reflexivity.
Qed.

Lemma sliceTo_append n : forall s1 s2,
  String.length s1 = n -> sliceTo n (s1 ++ s2)%string = s1.
Proof.
  induction n as [|n IH]; intros s1 s2 H; destruct s1 as [|c s1];
    try discriminate; [reflexivity|].
  cbn. rewrite IH; [reflexivity|]. cbn in H. lia.
Qed.

Lemma sliceFrom_append n : forall s1 s2,
  String.length s1 = n -> sliceFrom n (s1 ++ s2)%string = s2.
Proof.
  induction n as [|n IH]; intros s1 s2 H; destruct s1 as [|c s1];
    try discriminate; [reflexivity|].
  cbn. apply IH. cbn in H. lia.
Qed.

Lemma append_assoc (s1 s2 s3 : string) :
  ((s1 ++ s2) ++ s3)%string = (s1 ++ (s2 ++ s3))%string.
Proof. induction s1 as [|c s1 IH]; cbn; [reflexivity|]. rewrite IH. reflexivity. Qed.

(** X4. The constructor inserts the labels after the first 8 characters
    of the provider URL: right after the scheme of an [https://] URL, and
    one character into the host of an [http://] URL. *)
Theorem algorand_endpoints_after_eight_characters :
  forall rest m c,
       (apiURL (newAlgorandConfig ("https://" ++ rest) m) = ("https://node." ++ rest)%string
       /\ indexerURL (newAlgorandConfig ("https://" ++ rest) m)
          = ("https://algoindexer." ++ rest)%string
       /\ apiURL (newAlgorandConfig ("http://" ++ String c rest) m)
          = ("http://" ++ String c ("node." ++ rest))%string
       /\ indexerURL (newAlgorandConfig ("http://" ++ String c rest) m)
          = ("http://" ++ String c ("algoindexer." ++ rest))%string).
Proof. intros rest m c. repeat split; reflexivity. Qed.

(** X5. The endpoints are 5 and 12 characters longer than the provider
    URL; for a provider URL of 8 characters or more, cutting the label out
    of an endpoint gives the provider URL back; a shorter provider URL has
    the label appended. *)
Theorem algorand_endpoints_keep_the_provider_url :
  forall url m,
    let cfg := newAlgorandConfig url m in
    String.length (apiURL cfg) = (String.length url + 5)%nat
    /\ String.length (indexerURL cfg) = (String.length url + 12)%nat
    /\ ((8 <= String.length url)%nat ->
          (sliceTo 8 (apiURL cfg) ++ sliceFrom 13 (apiURL cfg))%string = url
          /\ (sliceTo 8 (indexerURL cfg) ++ sliceFrom 20 (indexerURL cfg))%string
             = url)
    /\ ((String.length url < 8)%nat ->
          apiURL cfg = (url ++ "node.")%string
          /\ indexerURL cfg = (url ++ "algoindexer.")%string).
Proof.
  intros url m cfg. subst cfg. cbn [apiURL indexerURL newAlgorandConfig].
  assert (Hlen : (String.length (sliceTo 8 url) + String.length (sliceFrom 8 url)
                  = String.length url)%nat)
    by (rewrite <- length_append, sliceTo_sliceFrom; reflexivity).
  split; [|split; [|split]].
  - rewrite !length_append. cbn [String.length]. lia.
  - rewrite !length_append. cbn [String.length]. lia.
  - intros H8.
    assert (H : String.length (sliceTo 8 url) = 8%nat)
      by (rewrite length_sliceTo; lia).
    split.
    + rewrite (sliceTo_append 8 _ _ H).
      rewrite <- append_assoc.
      rewrite (sliceFrom_append 13 (sliceTo 8 url ++ "node.") (sliceFrom 8 url))
        by (rewrite length_append, H; reflexivity).
      apply sliceTo_sliceFrom.
    + rewrite (sliceTo_append 8 _ _ H).
      rewrite <- append_assoc.
      rewrite (sliceFrom_append 20 (sliceTo 8 url ++ "algoindexer.")
                 (sliceFrom 8 url))
        by (rewrite length_append, H; reflexivity).
      apply sliceTo_sliceFrom.
  - intros H8.
    assert (Hto : sliceTo 8 url = url).
    { clear Hlen. revert H8. generalize 8%nat as n. intros n. revert url.
      induction n as [|n IH]; intros url H; [cbn in H; lia|].
      destruct url as [|c rest]; [reflexivity|]. cbn.
      rewrite IH; [reflexivity|]. cbn in H. lia. }
    assert (Hfrom : sliceFrom 8 url = "").
    { rewrite Hto in Hlen.
      destruct (sliceFrom 8 url); [reflexivity|]. cbn in Hlen. lia. }
    rewrite Hto, Hfrom. split; reflexivity.
Qed.

Section AlgorandTx.
Context {St : Type} (network : string -> St -> AxiosReply * St).

(** X6. When the indexer answers with a payment transaction and the node
    with its parameters, [getTx] requests the indexer and then the node,
    resolves with the sender, receiver, amount and round of the
    transaction, never pending, and confirmed exactly when both rounds
    are known and the last round is at least [minConfirm] rounds after
    the round of the transaction. *)
Theorem getTx_reports_confirmation :
  forall cfg txId s d1 s1 d2 s2 indexed payment,
    network (indexerURL cfg ++ "/v2/transactions/" ++ txId)%string s
      = (AxiosReturns d1, s1) ->
    network (apiURL cfg ++ "/v2/transactions/params")%string s1
      = (AxiosReturns d2, s2) ->
    transaction d1 = Some indexed ->
    paymentTransaction indexed = Some payment ->
    exists tx,
      getTx St network cfg txId s
      = (Resolved tx, s2,
         [(indexerURL cfg ++ "/v2/transactions/" ++ txId)%string;
          (apiURL cfg ++ "/v2/transactions/params")%string])
      /\ pending tx = false
      /\ blockHeight tx = confirmedRound indexed
      /\ txFrom tx = sender indexed /\ txTo tx = receiver payment
      /\ txAmount tx = amount payment
      /\ (confirmed tx = true <->
            exists latest round,
              lastRound d2 = Some latest /\ confirmedRound indexed = Some round
              /\ minConfirm cfg <= latest - round).
Proof.
  intros cfg txId s d1 s1 d2 s2 indexed payment H1 H2 Ht Hp.
  eexists. split.
  - unfold getTx, getCurrentHeight, Axios.bind, Axios.get, Axios.ret.
    rewrite H1, H2, Ht, Hp. reflexivity.
  - cbn. repeat split.
    + unfold differenceAtLeast.
      destruct (lastRound d2) as [latest|]; [|discriminate].
      destruct (confirmedRound indexed) as [round|]; [|discriminate].
      intros H. exists latest, round. apply Z.leb_le in H. auto.
    + intros (latest & round & -> & -> & H). cbn. apply Z.leb_le. exact H.
Qed.

(** X7. [getTx] rejects with the error of the indexer without asking the
    node when the request to the indexer fails; when the answer holds no
    transaction, or a transaction without a payment part, it rejects
    after it has asked the node for the last round. *)
Theorem getTx_failures :
  forall cfg txId s,
    (forall e s1,
        network (indexerURL cfg ++ "/v2/transactions/" ++ txId)%string s
          = (AxiosThrows e, s1) ->
        getTx St network cfg txId s
        = (Rejected e, s1, [(indexerURL cfg ++ "/v2/transactions/" ++ txId)%string]))
    /\ (forall d1 s1 d2 s2,
          network (indexerURL cfg ++ "/v2/transactions/" ++ txId)%string s
            = (AxiosReturns d1, s1) ->
          network (apiURL cfg ++ "/v2/transactions/params")%string s1
            = (AxiosReturns d2, s2) ->
          (transaction d1 = None
           \/ exists indexed, transaction d1 = Some indexed
                              /\ paymentTransaction indexed = None) ->
          exists e,
            getTx St network cfg txId s
            = (Rejected e, s2,
               [(indexerURL cfg ++ "/v2/transactions/" ++ txId)%string;
                (apiURL cfg ++ "/v2/transactions/params")%string])).
Proof.
  intros cfg txId s. split.
  - intros e s1 H1. unfold getTx, Axios.bind, Axios.get. rewrite H1. reflexivity.
  - intros d1 s1 d2 s2 H1 H2 Hshape.
    unfold getTx, getCurrentHeight, Axios.bind, Axios.get, Axios.ret, Axios.throw.
    rewrite H1, H2.
    destruct Hshape as [->|(indexed & -> & ->)]; eexists; reflexivity.
Qed.
End AlgorandTx.

(** ** Chunks that are present *)

(** ** More on the chunked upload *)

Lemma In_missingFrom present c o : forall n i,
  In o (missingFrom n i c present) ->
  includes present o = false /\ exists j : nat, o = (i + Z.of_nat j) * c.
Proof.
  induction n as [|n IH]; intros i; cbn [missingFrom]; [contradiction|].
  destruct (includes present (i * c)) eqn:Hp; cbn [negb].
  - intros H. destruct (IH _ H) as [H1 [j ->]]. split; [exact H1|].
    exists (S j). f_equal. lia.
  - intros [<-|H].
    + split; [exact Hp|]. exists O. f_equal. lia.
    + destruct (IH _ H) as [H1 [j ->]]. split; [exact H1|].
      exists (S j). f_equal. lia.
Qed.

Lemma includes_missingOffsets_absent size c present o :
  includes (missingOffsets size c present) o = true ->
  includes present o = false /\ exists k : nat, o = Z.of_nat k * c.
Proof.
  intros H. apply includes_In in H. unfold missingOffsets in H.
  destruct (In_missingFrom _ _ _ _ _ H) as [H1 [j ->]]. split; [exact H1|].
  exists j. f_equal.
Qed.

Lemma filter_none {A} (f : A -> bool) l :
  (forall x, In x l -> f x = false) -> filter f l = [].
Proof.
  induction l as [|x l IH]; intros H; [reflexivity|]. cbn.
  rewrite (H x (or_introl eq_refl)). apply IH. intros y Hy. apply H. now right.
Qed.

Section ChunkedMore.
Context {St : Type} (api : Request -> St -> Reply * St).

(** With nothing missing and nothing in flight the loop does nothing. *)
Lemma uploadLoop_nothing_missing txid b cnks :
  (1 <= b)%Q ->
  forall offset s,
    uploadLoop St api txid b [] cnks offset [] s = (Resolved [], s, []).
Proof.
  intros Hb. induction cnks as [|chunk rest IH]; intros offset s;
    [reflexivity|].
  cbn [uploadLoop List.length includes existsb]. cbv zeta.
  rewrite (Qeq_bool_zero _ Hb).
  unfold Async.bind, Async.ret. rewrite IH. reflexivity.
Qed.

(** Every chunk request of the loop is for an offset of [missing]. *)
Lemma uploadLoop_requests_missing txid b missing cnks :
  forall offset processing,
    Emits (chunkRequestTo txid (fun o => includes missing o = true))
      (uploadLoop St api txid b missing cnks offset processing).
Proof.
  induction cnks as [|chunk rest IH]; intros offset processing;
    cbn [uploadLoop]; [apply Emits_ret|]. cbv zeta.
  apply Emits_bind.
  - destruct (Qeq_bool _ b); [|apply Emits_ret].
    apply Emits_bind; [apply Emits_awaitAll; intros; exact I|].
    intros _. apply Emits_ret.
  - intros p1. apply Emits_bind; [|intros p2; apply IH].
    destruct (includes missing offset) eqn:Hm; [|apply Emits_ret].
    apply Emits_bind; [apply Emits_emit; exact Hm|]. intros _.
    apply Emits_bind; [|intros p; apply Emits_ret].
    apply Emits_spawn, Emits_promiseFactory.
    + intros ms. exact I.
    + intros r. split; [reflexivity|exact Hm].
Qed.

(** X8. In every run of [chunkedTransactionUploader], every chunk that is
    admitted or posted belongs to the item, and its offset is a multiple
    of the chunk size that the presence query of this run did not report
    as present; without offsets from the presence query no chunk is
    posted. *)
Theorem chunked_uploads_only_absent_chunks :
  forall dataStream txid size chunkSize batchSize s,
    Forall
      (chunkRequestTo txid
         (fun o =>
            exists getres s1 present,
              api (GetChunkInfo txid size) s = (Returns getres, s1)
              /\ data getres = DataOffsets present
              /\ includes present o = false
              /\ exists k : nat, o = Z.of_nat k * chunkSize))
      (Async.events
         (chunkedTransactionUploader St api dataStream txid size chunkSize
            batchSize s)).
Proof.
  intros dataStream txid size chunkSize batchSize s.
  unfold chunkedTransactionUploader.
  destruct (_ || _); [constructor|].
  destruct (Qlt_bool batchSize 1); [constructor|].
  unfold Async.bind at 1. unfold apiCall at 1.
  destruct (api (GetChunkInfo txid size) s) as [[getres|e] s1] eqn:Hapi;
    [|repeat constructor].
  destruct (status getres =? 201); [repeat constructor|].
  destruct (checkAndThrow getres _ _); [repeat constructor|].
  destruct (data getres) as [| |present|] eqn:Hdata; try (repeat constructor).
  match goal with
  | |- context [match ?k s1 with _ => _ end] =>
      assert (HK : Emits (chunkRequestTo txid
                            (fun o => includes
                               (missingOffsets size chunkSize present) o = true)) k);
      [|specialize (HK s1); destruct (k s1) as [[o2 s2] l2]]
  end.
  { apply Emits_bind; [apply uploadLoop_requests_missing|]. intros ps.
    apply Emits_bind; [apply Emits_awaitAll; intros; exact I|]. intros _.
    apply Emits_bind; [apply Emits_apiCall; intros; exact I|]. intros fin.
    destruct (status fin =? 402); [apply Emits_throw|].
    destruct (checkAndThrow fin _ _); [apply Emits_throw|apply Emits_ret]. }
  cbn in HK |- *. constructor; [exact I|].
  eapply Forall_impl; [|exact HK].
  intros ev. destruct ev as [[t sz|t o d|t|raw] r|ms|o len|n st|w]; cbn; auto.
  - intros [Ht Hm]. split; [exact Ht|].
    destruct (includes_missingOffsets_absent _ _ _ _ Hm) as [Hp Hk].
    exists getres, s1, present. auto.
  - intros Hm.
    destruct (includes_missingOffsets_absent _ _ _ _ Hm) as [Hp Hk].
    exists getres, s1, present. auto.
Qed.

(** X9. When the presence query reports every candidate offset
    [0, c, ..., (size / c) * c] as present, no chunk is uploaded: the run
    is the presence query, a [Promise.all] over nothing and the final
    call. *)
Theorem chunked_with_everything_present :
  forall dataStream txid size chunkSize batchSize s getres s1 present,
    1000000 <= chunkSize <= 190000000 -> (1 <= batchSize)%Q -> 0 <= size ->
    api (GetChunkInfo txid size) s = (Returns getres, s1) ->
    status getres = 200 -> data getres = DataOffsets present ->
    (forall k, 0 <= k <= size / chunkSize -> In (k * chunkSize) present) ->
    exists reply s2 o,
      api (PostFinish txid) s1 = (reply, s2)
      /\ chunkedTransactionUploader St api dataStream txid size chunkSize
           batchSize s
         = (o, s2,
            [EvRequest (GetChunkInfo txid size) (Returns getres);
             EvAwaitAll 0 true;
             EvRequest (PostFinish txid) reply]).
Proof.
  intros dataStream txid size chunkSize batchSize s getres s1 present
    Hc Hb Hsize Hapi Hst Hdata Hall.
  assert (Hc0 : 0 < chunkSize) by lia.
  assert (Hmissing : missingOffsets size chunkSize present = []).
  { rewrite missingOffsets_filter by assumption.
    apply filter_none. intros o Ho.
    apply in_map_iff in Ho as [k [<- Hk]]. apply in_seq in Hk.
    assert (In (Z.of_nat k * chunkSize) present) as Hin.
    { apply Hall. pose proof (Z.div_pos size chunkSize Hsize Hc0). lia. }
    apply includes_In in Hin. rewrite Hin. reflexivity. }
  destruct (api (PostFinish txid) s1) as [reply s2] eqn:Hfin.
  exists reply, s2.
  unfold chunkedTransactionUploader.
  test_false (chunkSize <? 1000000). test_false (190000000 <? chunkSize).
  rewrite (Qlt_bool_false _ _ Hb). cbn [orb].
  unfold Async.bind at 1. unfold apiCall at 1. rewrite Hapi.
  assert (H201 : (status getres =? 201) = false) by (rewrite Hst; reflexivity).
  assert (Hcheck : checkAndThrow getres "Getting chunk info" [] = None)
    by (unfold checkAndThrow; rewrite Hst; reflexivity).
  rewrite H201, Hcheck, Hdata, Hmissing.
  unfold Async.bind at 1. rewrite (uploadLoop_nothing_missing txid batchSize _ Hb).
  unfold Async.bind at 1. unfold Async.awaitAll at 1.
  cbn [Async.firstRejected Async.allResolved List.length].
  unfold Async.bind at 1. unfold apiCall at 1. rewrite Hfin.
  destruct reply as [fin|e]; cbn [app].
  - destruct (status fin =? 402); [eexists; split; reflexivity|].
    destruct (checkAndThrow fin "Finalising upload" [201]);
      eexists; split; reflexivity.
  - eexists; split; reflexivity.
Qed.
End ChunkedMore.

(** ** The final call *)

(** A list that ends in its only final call splits at that call only. *)
Lemma split_at_finish l1 f : forall pre g post,
  Forall (fun ev => isFinish ev = false) l1 ->
  isFinish g = true ->
  l1 ++ [f] = pre ++ g :: post ->
  pre = l1 /\ g = f /\ post = [].
Proof.
  induction l1 as [|x l1 IH]; intros pre g post Hl1 Hg E.
  - destruct pre as [|y pre]; cbn in E.
    + injection E as <- <-. auto.
    + injection E as _ E. destruct pre; discriminate.
  - inversion Hl1 as [|? ? Hx Hl1']; subst.
    destruct pre as [|y pre]; cbn in E.
    + injection E as <- _. congruence.
    + injection E as <- E. destruct (IH _ _ _ Hl1' Hg E) as (-> & -> & ->).
      auto.
Qed.

Section FinalCall.
Context {St : Type} (api : Request -> St -> Reply * St).

Lemma uploadLoop_no_finish txid b missing cnks :
  forall offset processing,
    Emits (fun ev => isFinish ev = false)
      (uploadLoop St api txid b missing cnks offset processing).
Proof.
  induction cnks as [|chunk rest IH]; intros offset processing;
    cbn [uploadLoop]; [apply Emits_ret|]. cbv zeta.
  apply Emits_bind.
  - destruct (Qeq_bool _ b); [|apply Emits_ret].
    apply Emits_bind; [apply Emits_awaitAll; reflexivity|].
    intros _. apply Emits_ret.
  - intros p1. apply Emits_bind; [|intros p2; apply IH].
    destruct (includes missing offset); [|apply Emits_ret].
    apply Emits_bind; [apply Emits_emit; reflexivity|]. intros _.
    apply Emits_bind; [|intros p; apply Emits_ret].
    apply Emits_spawn, Emits_promiseFactory; reflexivity.
Qed.

(** A run either has no final call, or ends with a [Promise.all] that came
    to an end followed by the final call. *)
Lemma chunked_shape dataStream txid size chunkSize batchSize s :
  exists o s' log,
    chunkedTransactionUploader St api dataStream txid size chunkSize
      batchSize s = (o, s', log)
    /\ (Forall (fun ev => isFinish ev = false) log
        \/ exists l1 n r,
             log = l1 ++ [EvAwaitAll n true] ++ [EvRequest (PostFinish txid) r]
             /\ Forall (fun ev => isFinish ev = false) l1).
Proof.
  unfold chunkedTransactionUploader.
  destruct (_ || _);
    [do 3 eexists; split; [reflexivity|left; constructor]|].
  destruct (Qlt_bool batchSize 1);
    [do 3 eexists; split; [reflexivity|left; constructor]|].
  unfold Async.bind at 1. unfold apiCall at 1.
  destruct (api (GetChunkInfo txid size) s) as [[getres|e] s1];
    [|do 3 eexists; split; [reflexivity|left; repeat constructor]].
  destruct (status getres =? 201);
    [do 3 eexists; split; [reflexivity|left; repeat constructor]|].
  destruct (checkAndThrow getres _ _);
    [do 3 eexists; split; [reflexivity|left; repeat constructor]|].
  destruct (data getres) as [| |present|];
    try solve [do 3 eexists; split; [reflexivity|left; repeat constructor]].
  unfold Async.bind at 1.
  pose proof (uploadLoop_no_finish txid batchSize
                (missingOffsets size chunkSize present)
                (chunker chunkSize dataStream) 0 [] s1) as Hloop.
  destruct (uploadLoop St api txid batchSize
              (missingOffsets size chunkSize present)
              (chunker chunkSize dataStream) 0 [] s1) as [[o s2] l2].
  cbn in Hloop.
  destruct o as [ps|e|];
    [|do 3 eexists; split; [reflexivity|left; cbn; constructor;
                                          [reflexivity|exact Hloop]]..].
  unfold Async.bind at 1. unfold Async.awaitAll at 1.
  destruct (Async.firstRejected ps).
  { do 3 eexists; split; [reflexivity|]. left. cbn.
    constructor; [reflexivity|]. apply Forall_app. split; [exact Hloop|].
    repeat constructor. }
  destruct (Async.allResolved ps).
  2:{ do 3 eexists; split; [reflexivity|]. left. cbn.
      constructor; [reflexivity|]. apply Forall_app.
      split; [exact Hloop|]. repeat constructor. }
  unfold Async.bind at 1. unfold apiCall at 1.
  destruct (api (PostFinish txid) s2) as [[fin|e] s3].
  - destruct (status fin =? 402);
      [|destruct (checkAndThrow fin _ _)];
      (do 3 eexists; split; [reflexivity|]; right;
       exists (EvRequest (GetChunkInfo txid size) (Returns getres) :: l2),
         (List.length ps), (Returns fin);
       split; [cbn; rewrite ?app_nil_r; reflexivity
              |constructor; [reflexivity|exact Hloop]]).
  - do 3 eexists; split; [reflexivity|]. right.
    exists (EvRequest (GetChunkInfo txid size) (Returns getres) :: l2),
      (List.length ps), (Throws e).
    split; [cbn; rewrite ?app_nil_r; reflexivity
           |constructor; [reflexivity|exact Hloop]].
Qed.

(** X10. The final call of a chunked upload is made at most once, for
    the item, as the last event of the run, right after a [Promise.all]
    that came to an end, so that no chunk upload is in flight. *)
Theorem chunked_finalizes_once_at_the_end :
  forall dataStream txid size chunkSize batchSize s pre t r post,
    Async.events
      (chunkedTransactionUploader St api dataStream txid size chunkSize
         batchSize s)
      = pre ++ EvRequest (PostFinish t) r :: post ->
    t = txid /\ post = []
    /\ Forall (fun ev => isFinish ev = false) pre
    /\ (exists before n, pre = before ++ [EvAwaitAll n true])
    /\ inFlight pre = 0%nat.
Proof.
  intros dataStream txid size chunkSize batchSize s pre t r post E.
  destruct (chunked_shape dataStream txid size chunkSize batchSize s)
    as (o & s' & log & Hrun & [Hnone|(l1 & n & r0 & Hlog & Hl1)]);
    rewrite Hrun in E; cbn [Async.events snd] in E.
  - exfalso. rewrite E in Hnone. apply Forall_app in Hnone as [_ H].
    inversion H as [|? ? Hev _]. discriminate.
  - rewrite E, app_assoc in Hlog. symmetry in Hlog.
    assert (Hpre : Forall (fun ev => isFinish ev = false)
                     (l1 ++ [EvAwaitAll n true]))
      by (apply Forall_app; split; [exact Hl1|repeat constructor]).
    destruct (split_at_finish _ _ pre (EvRequest (PostFinish t) r) post Hpre
                eq_refl Hlog) as (-> & Hg & ->).
    injection Hg as -> _.
    repeat split; auto.
    + exists l1, n. reflexivity.
    + unfold inFlight. rewrite inFlightFrom_app. reflexivity.
Qed.

(** X11. When a transaction goes the chunked way and the presence query
    is answered with status 201, [transactionUploader] resolves with that
    response, its body replaced by the id, and nothing but the presence
    query is sent. *)
Theorem stored_item_is_not_uploaded_again :
  forall force transaction s getres s1,
    force = true \/ 50000000 < byteLength (getRaw transaction) ->
    api (GetChunkInfo (id transaction) (byteLength (getRaw transaction))) s
      = (Returns getres, s1) ->
    status getres = 201 ->
    transactionUploader St api force transaction s
    = (Resolved {| status := 201; statusText := statusText getres;
                   data := DataId (id transaction) |}, s1,
       [EvRequest (GetChunkInfo (id transaction)
                     (byteLength (getRaw transaction))) (Returns getres)]).
Proof.
  intros force transaction s getres s1 Hpath Hapi Hst.
  unfold transactionUploader.
  assert (Hcond : force || (50000000 <? byteLength (getRaw transaction)) = true).
  { destruct Hpath as [->|H]; [reflexivity|].
    apply orb_true_iff. right. apply Z.ltb_lt. exact H. }
  rewrite Hcond. unfold chunkedTransactionUploader.
  change (Qlt_bool 5 1) with false.
  cbn [Z.ltb Z.compare Pos.compare Pos.compare_cont orb].
  unfold Async.bind, apiCall. rewrite Hapi.
  replace (status getres =? 201) with true by (rewrite Hst; reflexivity).
  cbn [Async.ret setData status statusText data]. rewrite Hst.
  cbn [Z.eqb Pos.eqb]. cbn [Async.ret app].
  unfold setData. cbn [status statusText]. rewrite Hst. reflexivity.
Qed.
End FinalCall.

(** ** Retries of a chunk *)

(** ** Retries *)

Lemma chunkAttempts_app o l1 l2 :
  chunkAttempts o (l1 ++ l2) = (chunkAttempts o l1 + chunkAttempts o l2)%nat.
Proof.
  induction l1 as [|ev l1 IH]; [reflexivity|].
  destruct ev as [[t sz|t o' d|t|raw] r|ms|o' len|n st|w]; cbn; auto.
  destruct (o' =? o); cbn; rewrite IH; reflexivity.
Qed.

Lemma backoffs_app l1 l2 : backoffs (l1 ++ l2) = backoffs l1 ++ backoffs l2.
Proof.
  induction l1 as [|ev l1 IH]; [reflexivity|].
  destruct ev; cbn; rewrite ?IH; reflexivity.
Qed.

Lemma directPosts_app l1 l2 :
  directPosts (l1 ++ l2) = (directPosts l1 + directPosts l2)%nat.
Proof.
  induction l1 as [|ev l1 IH]; [reflexivity|].
  destruct ev as [[t sz|t o' d|t|raw] r|ms|o' len|n st|w]; cbn; auto.
Qed.

Section Retries.
Context {St : Type} (api : Request -> St -> Reply * St).

Lemma retryLoop_chunk_bounds opts txid d o
    (fn : nat -> Async.t St (Attempt (Z * AxiosResponse))) :
  (forall n s,
      fn n s = attempt St (re <- apiCall St api (PostChunk txid o d) ;;
                           Async.ret (o, re)) (fun _ => false) s) ->
  forall left num errs s,
    exists r s' ev,
      retryLoop opts left num errs fn s = (r, s', ev)
      /\ (1 <= chunkAttempts o ev <= S left)%nat
      /\ List.length (backoffs ev) = Nat.pred (chunkAttempts o ev)
      /\ directPosts ev = 0%nat.
Proof.
  intros Hfn.
  induction left as [|left IH]; intros num errs s;
    cbn [retryLoop]; unfold Async.bind at 1; rewrite Hfn;
    unfold attempt, Async.bind, apiCall;
    destruct (api (PostChunk txid o d) s) as [[res|e] s1];
    cbn -[retryLoop].
  - do 3 eexists. split; [reflexivity|]. cbn. rewrite Z.eqb_refl. cbn.
    split; [lia|split; reflexivity].
  - do 3 eexists. split; [reflexivity|]. cbn. rewrite Z.eqb_refl. cbn.
    split; [lia|split; reflexivity].
  - do 3 eexists. split; [reflexivity|]. cbn. rewrite Z.eqb_refl. cbn.
    split; [lia|split; reflexivity].
  - destruct (IH (S num) (errs ++ [e]) s1) as (r & s' & ev & Hrun & H1 & H2 & H3).
    rewrite Hrun.
    do 3 eexists. split; [reflexivity|]. cbn. rewrite Z.eqb_refl. cbn.
    rewrite H2, H3. split; [lia|]. split; [lia|reflexivity].
Qed.

(** X12. Whatever the service does, [promiseFactory] posts its chunk at
    least once and at most 11 times, waits once between two posts, and
    never posts to the direct endpoint. *)
Theorem chunk_is_posted_between_once_and_eleven_times :
  forall txid d o s,
    let ev := Async.events (promiseFactory St api txid d o s) in
    (1 <= chunkAttempts o ev <= 11)%nat
    /\ List.length (backoffs ev) = Nat.pred (chunkAttempts o ev)
    /\ directPosts ev = 0%nat.
Proof.
  intros txid d o s.
  unfold promiseFactory, newPromiseResolveOnly, retry.
  cbn [retries retryDefaults].
  match goal with
  | |- context [retryLoop retryDefaults 10 1 [] ?fn s] =>
      destruct (retryLoop_chunk_bounds retryDefaults txid d o fn
                  (fun _ _ => eq_refl) 10%nat 1%nat [] s)
        as (r & s' & ev & Hrun & H);
      rewrite Hrun
  end.
  destruct r; exact H.
Qed.

(** A chunk upload that throws [errs] and then gets a response. *)
Lemma retryLoop_chunk_recovers opts txid d o errs0
    (fn : nat -> Async.t St (Attempt (Z * AxiosResponse))) :
  (forall n s,
      fn n s = attempt St (re <- apiCall St api (PostChunk txid o d) ;;
                           Async.ret (o, re)) (fun _ => false) s) ->
  forall s res s',
    throwsThenReturns api (PostChunk txid o d) errs0 s res s' ->
    forall left num errs,
      (List.length errs0 <= left)%nat ->
      exists l,
        retryLoop opts left num errs fn s = (Resolved (o, res), s', l)
        /\ chunkAttempts o l = S (List.length errs0).
Proof.
  intros Hfn.
  induction 1 as [s res s' Hapi|e errs0 s s1 res s' Hapi Hrest IH];
    intros left num errs Hleft.
  - exists [EvRequest (PostChunk txid o d) (Returns res)].
    destruct left; cbn [retryLoop]; unfold Async.bind at 1; rewrite Hfn;
      unfold attempt, Async.bind, apiCall;
      rewrite Hapi; cbn; rewrite Z.eqb_refl; auto.
  - destruct left as [|left]; [cbn in Hleft; lia|].
    destruct (IH left (S num) (errs ++ [e]) ltac:(cbn in Hleft; lia))
      as (l & Hl & Hcount).
    eexists. split.
    + cbn [retryLoop]. unfold Async.bind at 1. rewrite Hfn.
      unfold attempt, Async.bind, apiCall. rewrite Hapi.
      cbn -[retryLoop]. rewrite Hl. reflexivity.
    + cbn. rewrite Z.eqb_refl, Hcount. reflexivity.
Qed.

(** X13. A chunk upload that throws up to 10 times and then gets a
    response resolves with that response, after one post more than it
    threw. *)
Theorem chunk_upload_recovers_from_failures :
  forall txid d o errs s res s',
    throwsThenReturns api (PostChunk txid o d) errs s res s' ->
    (List.length errs <= 10)%nat ->
    exists l,
      promiseFactory St api txid d o s = (Resolved (o, res), s', l)
      /\ chunkAttempts o l = S (List.length errs).
Proof.
  intros txid d o errs s res s' H Hlen.
  unfold promiseFactory, newPromiseResolveOnly, retry.
  cbn [retries retryDefaults].
  match goal with
  | |- context [retryLoop retryDefaults 10 1 [] ?fn s] =>
      destruct (retryLoop_chunk_recovers retryDefaults txid d o errs fn
                  (fun _ _ => eq_refl) s res s' H 10%nat 1%nat [] Hlen)
        as (l & Hl & Hcount)
  end.
  exists l. split; [|exact Hcount]. rewrite Hl. reflexivity.
Qed.
End Retries.

(** ** Retries of an item *)

(** ** Items of a batch *)

Lemma errorsOf_resultsOf_length per :
  (List.length (errorsOf per) + List.length (resultsOf per))%nat
  = List.length per.
Proof.
  induction per as [|[e|] per IH]; cbn; lia.
Qed.

Section Items.
Context {St : Type} (api : Request -> St -> Reply * St).
Context (createData : Buffer -> DataItem) (bufferFrom : string -> Buffer)
  (Any : Type).

(** The direct upload of a transaction, by what the service does. *)
Lemma transactionUploader_direct transaction s :
  byteLength (getRaw transaction) <= 50000000 ->
  match api (PostTx (getRaw transaction)) s with
  | (Throws e, s1) =>
      transactionUploader St api false transaction s
      = (Rejected e, s1, [EvRequest (PostTx (getRaw transaction)) (Throws e)])
  | (Returns res, s1) =>
      status res < 400 ->
      exists res',
        transactionUploader St api false transaction s
        = (Resolved res', s1,
           [EvRequest (PostTx (getRaw transaction)) (Returns res)])
  end.
Proof.
  intros Hlen. unfold transactionUploader.
  test_false (50000000 <? byteLength (getRaw transaction)). cbn [orb].
  unfold Async.bind, apiCall.
  destruct (api (PostTx (getRaw transaction)) s) as [[res|e] s1];
    [|reflexivity].
  intros Hst. destruct (status res =? 201); [eexists; reflexivity|].
  test_false (status res =? 402). test_false (400 <=? status res).
  eexists. reflexivity.
Qed.

(** Retries of the direct upload of one item whose index does not call for
    the progress log. *)
Lemma retryLoop_item_recovers opts concurrency lf transaction i errs0 :
  byteLength (getRaw transaction) <= 50000000 ->
  remIsZero i concurrency = false ->
  Forall (fun e => isNotEnoughFunds e = false) errs0 ->
  forall s res s',
    throwsThenReturns api (PostTx (getRaw transaction)) errs0 s res s' ->
    status res < 400 ->
    forall left num errs,
      (List.length errs0 <= left)%nat ->
      exists v l,
        retryLoop opts left num errs
          (fun _ =>
             processAttempt St api false createData bufferFrom Any concurrency
               None lf (ItemData transaction) i) s
        = (Resolved v, s', l)
        /\ directPosts l = S (List.length errs0).
Proof.
  intros Hlen Hi Hfunds s res s' H.
  induction H as [s res s' Hapi|e errs0 s s1 res s' Hapi Hrest IH];
    intros Hst left num errs Hleft.
  - pose proof (transactionUploader_direct transaction s Hlen) as Hd.
    rewrite Hapi in Hd. destruct (Hd Hst) as [res' Hres'].
    do 2 eexists.
    destruct left; cbn [retryLoop]; unfold Async.bind at 1;
      unfold processAttempt, attempt, Async.bind; cbn [processItem];
      rewrite Hres', Hi; cbn; split; reflexivity.
  - inversion Hfunds as [|? ? He Hfunds']; subst.
    destruct left as [|left]; [cbn in Hleft; lia|].
    destruct (IH Hfunds' Hst left (S num) (errs ++ [e])
                ltac:(cbn in Hleft; lia)) as (v & l & Hl & Hcount).
    pose proof (transactionUploader_direct transaction s Hlen) as Hd.
    rewrite Hapi in Hd.
    do 2 eexists. split.
    + cbn [retryLoop]. unfold Async.bind at 1.
      unfold processAttempt at 1. unfold attempt at 1.
      unfold Async.bind at 1. cbn [processItem]. rewrite Hd, He.
      cbn -[retryLoop]. unfold Async.bind. cbn [Async.emit].
      rewrite Hl. reflexivity.
    + cbn. rewrite Hcount. reflexivity.
Qed.

(** X14. An item on the direct path whose upload throws up to 3 times,
    with errors other than insufficient funds, and is then answered with
    a status below 400 ends as a result: its task resolves after one
    post more than it threw.  (The index is one that does not call for
    the progress log.) *)
Theorem item_upload_recovers_from_failures :
  forall concurrency lf transaction i errs s res s',
    byteLength (getRaw transaction) <= 50000000 ->
    remIsZero i concurrency = false ->
    Forall (fun e => isNotEnoughFunds e = false) errs ->
    throwsThenReturns api (PostTx (getRaw transaction)) errs s res s' ->
    status res < 400 ->
    (List.length errs <= 3)%nat ->
    exists l,
      processTask St api false createData bufferFrom Any concurrency None lf
        (ItemData transaction) i s
      = (Resolved undefined, s', l)
      /\ directPosts l = S (List.length errs).
Proof.
  intros concurrency lf transaction i errs s res s' Hlen Hi Hfunds H Hst Hn.
  unfold processTask, retry. cbn [retries].
  destruct (retryLoop_item_recovers
              {| retries := 3; minTimeout := 1000; maxTimeout := Some 10000 |}
              concurrency lf transaction i errs Hlen Hi Hfunds s res s' H Hst
              3%nat 1%nat [] Hn) as (v & l & Hl & Hcount).
  unfold Async.bind. rewrite Hl. cbn.
  eexists. split; [reflexivity|]. rewrite directPosts_app, Hcount. cbn. lia.
Qed.

(** X15. Without a [logFunction], an item on the direct path whose index
    calls for the progress log is posted 4 times to a service that
    accepts every post, with three waits of base delay 1000, 2000 and
    4000 ms, before its task rejects with "logFunction is not a
    function". *)
Theorem missing_logFunction_uploads_the_item_four_times :
  forall concurrency rp transaction i s,
    byteLength (getRaw transaction) <= 50000000 ->
    remIsZero i concurrency = true ->
    (forall s0, exists res s1,
        api (PostTx (getRaw transaction)) s0 = (Returns res, s1)
        /\ status res < 400) ->
    exists s' l,
      processTask St api false createData bufferFrom Any concurrency rp None
        (ItemData transaction) i s
      = (Rejected {| message := "logFunction is not a function" |}, s', l)
      /\ directPosts l = 4%nat
      /\ backoffs l = [1000; 2000; 4000].
Proof.
  intros concurrency rp transaction i s Hlen Hi Hservice.
  assert (Hatt : forall s0, exists res s1,
    processAttempt St api false createData bufferFrom Any concurrency rp None
      (ItemData transaction) i s0
    = (Resolved (Threw {| message := "logFunction is not a function" |}), s1,
       [EvRequest (PostTx (getRaw transaction)) (Returns res)] ++ [])).
  { intros s0. destruct (Hservice s0) as (res & s1 & Hapi & Hst).
    pose proof (transactionUploader_direct transaction s0 Hlen) as Hd.
    rewrite Hapi in Hd. destruct (Hd Hst) as [res' Hres'].
    exists res, s1.
    apply (processAttempt_without_logFunction api false createData bufferFrom
             Any concurrency rp (ItemData transaction) i s0 res' s1 _ Hi).
    exact Hres'. }
  unfold processTask, retry. cbn [retries retryLoop].
  unfold Async.bind, Async.emit, Async.throw.
  destruct (Hatt s) as (r1 & s1 & ->).
  destruct (Hatt s1) as (r2 & s2 & ->).
  destruct (Hatt s2) as (r3 & s3 & ->).
  destruct (Hatt s3) as (r4 & s4 & ->).
  do 2 eexists. split; [reflexivity|]. split; reflexivity.
Qed.
End Items.

Section BatchOutcomes.
Context {St : Type} (api : Request -> St -> Reply * St).
Context (force : bool) (createData : Buffer -> DataItem)
  (bufferFrom : string -> Buffer) (Any : Type).

(** X16. A batch that resolves accounts for every item once, as an error
    or as a result, and holds no insufficient-funds error; a batch that
    rejects does so with the insufficient-funds message. *)
Theorem concurrentUploader_settles_in_two_ways :
  forall data concurrency rp lf s,
    let r := Async.outcome
               (concurrentUploader St api force createData bufferFrom Any data
                  concurrency rp lf s) in
    (forall br, r = Resolved br ->
       (List.length (errors br) + List.length (results br))%nat
         = List.length data
       /\ Forall (fun e => isNotEnoughFunds e = false) (errors br))
    /\ (forall e, r = Rejected e -> message e = notEnoughFunds).
Proof.
  intros data concurrency rp lf s r. subst r.
  unfold concurrentUploader, Async.bind, Async.emit, Async.ret.
  destruct (poolProcess St
              (processTask St api force createData bufferFrom Any concurrency
                 rp lf) data 0 [] [] s) as [[o s1] l1] eqn:Hpool.
  split.
  - intros br. destruct o as [[errs res]| |]; cbn; try discriminate.
    intros [= <-]. cbn [errors results fst snd].
    destruct (poolProcess_resolved _ (fun _ => False)
                (fun _ _ _ _ (H : False) => match H with end)
                data 0 [] [] s errs res ltac:(rewrite Hpool; reflexivity))
      as (per & Hlen & -> & -> & Hf & _).
    cbn [app]. rewrite errorsOf_resultsOf_length. auto.
  - intros e. destruct o as [[errs res]|e'|]; cbn; try discriminate.
    intros [= ->].
    pose proof (poolProcess_rejected _ data 0 [] [] s e
                  ltac:(rewrite Hpool; reflexivity)) as H.
    apply String.eqb_eq. exact H.
Qed.
End BatchOutcomes.

(** ** The chunking switch *)

Lemma directPosts_none l :
  Forall (fun ev => isDirectPost ev = false) l -> directPosts l = 0%nat.
Proof.
  induction 1 as [|ev l Hev _ IH]; [reflexivity|].
  destruct ev as [[t sz|t o' d|t|raw] r|ms|o' len|n st|w]; cbn in *;
    try discriminate; exact IH.
Qed.

Section Setters.
Context {St : Type} (api : Request -> St -> Reply * St).

(** What [transactionUploader] adds to the chunked upload causes no
    event. *)
Lemma transactionUploader_chunked_events force transaction s :
  force || (50000000 <? byteLength (getRaw transaction)) = true ->
  Async.events (transactionUploader St api force transaction s)
  = Async.events
      (chunkedTransactionUploader St api (getRaw transaction) (id transaction)
         (byteLength (getRaw transaction)) 25000000 5 s).
Proof.
  intros Hcond. unfold transactionUploader. rewrite Hcond. unfold Async.bind.
  destruct (chunkedTransactionUploader St api (getRaw transaction)
              (id transaction) (byteLength (getRaw transaction)) 25000000 5 s)
    as [[o s1] l1].
  destruct o as [res| |]; cbn; try reflexivity.
  destruct (status res =? 201); [cbn; apply app_nil_r|].
  destruct (status res =? 402); [cbn; apply app_nil_r|].
  destruct (400 <=? status res); cbn; apply app_nil_r.
Qed.

(** X17. [useChunking] takes a boolean and ignores every other value,
    and [contentType] does not touch it.  After [useChunking = true]
    every transaction starts with the presence query and is never posted
    directly; on a new uploader, whatever non-boolean was assigned, a
    transaction of at most 50,000,000 bytes is one direct POST. *)
Theorem useChunking_decides_the_path :
  forall v u transaction s,
    (forced (setUseChunking v u)
       = match v with JsBoolean b => b | _ => forced u end)
    /\ (forall type,
          forced (setUseChunking v (setContentType type u))
          = forced (setUseChunking v u))
    /\ (let run := uploaderTransactionUploader api
                     (setUseChunking (JsBoolean true) u) transaction s in
        (exists reply rest,
            Async.events run
            = EvRequest (GetChunkInfo (id transaction)
                           (byteLength (getRaw transaction))) reply :: rest)
        /\ directPosts (Async.events run) = 0%nat)
    /\ (byteLength (getRaw transaction) <= 50000000 ->
        (forall w, (forall b, w <> JsBoolean b) ->
           exists reply,
             Async.events
               (uploaderTransactionUploader api
                  (setUseChunking w newUploaderFields) transaction s)
             = [EvRequest (PostTx (getRaw transaction)) reply])).
Proof.
  intros v u transaction s. split; [|split; [|split]].
  - destruct v; reflexivity.
  - intros type. destruct v; reflexivity.
  - cbv zeta. unfold uploaderTransactionUploader.
    replace (forced (setUseChunking (JsBoolean true) u)) with true
      by reflexivity.
    rewrite transactionUploader_chunked_events by reflexivity.
    split.
    + apply chunked_starts_with_query;
        [lia|apply Qle_bool_iff; reflexivity].
    + apply directPosts_none, chunked_no_direct_post.
  - intros Hlen w Hw. unfold uploaderTransactionUploader.
    replace (forced (setUseChunking w newUploaderFields)) with false
      by (destruct w; try reflexivity; exfalso; eapply Hw; reflexivity).
    unfold transactionUploader.
    test_false (50000000 <? byteLength (getRaw transaction)). cbn [orb].
    unfold Async.bind, apiCall.
    destruct (api (PostTx (getRaw transaction)) s) as [[res|e] s1].
    + exists (Returns res).
      destruct (status res =? 201); [reflexivity|].
      destruct (status res =? 402); [reflexivity|].
      destruct (400 <=? status res); reflexivity.
    + exists (Throws e). reflexivity.
Qed.
End Setters.

(** ** Instances *)

Lemma siteItems_distinct : NoDup (map fst siteItems).
Proof.
  repeat constructor; cbn; intuition discriminate.
Qed.

(** X2 on a site of two files and an item under [__proto__]. *)
Lemma generateManifest_paths_are_the_items_witness :
  exists m,
    generateManifest siteItems (Some "index.html") = Resolved m
    /\ getOwn "app.js" (own (paths m)) = Some {| pathId := "id-app" |}
    /\ getOwn "missing" (own (paths m)) = None
    /\ getOwn "__proto__" (own (paths m)) = None
    /\ proto (paths m) = Some {| pathId := "id-proto" |}.
Proof.
  eexists. split; [reflexivity|].
  pose proof (generateManifest_paths_are_the_items siteItems
                (Some "index.html") _ siteItems_distinct eq_refl)
    as [Hown [Hnone Hproto]].
  split; [apply (Hown "app.js"); discriminate|].
  split; [apply (Hown "missing"); discriminate|].
  split; [exact Hnone|exact Hproto].
Defined.

(** X3 on the same site with [index.html] as index. *)
Lemma generateManifest_index_names_an_item_witness :
  exists m,
    generateManifest siteItems (Some "index.html") = Resolved m
    /\ index m = Some {| path := "index.html" |}
    /\ getOwn "index.html" (own (paths m)) = Some {| pathId := "id-index" |}.
Proof.
  eexists. split; [reflexivity|]. split; [reflexivity|].
  pose proof (generateManifest_index_names_an_item siteItems
                (Some "index.html") _ siteItems_distinct eq_refl)
    as [_ [_ [_ Hidx]]].
  destruct (Hidx "index.html" eq_refl) as [_ [v [Hv Hpath]]].
  injection Hv as <-. apply Hpath. discriminate.
Defined.

(** X6 for a payment of round 100 seen at round 105 with the inherited
    [minConfirm] of 5. *)
Lemma getTx_reports_confirmation_witness :
  exists tx,
    getTx unit algoNetwork algoConfig "TX" tt
    = (Resolved tx, tt,
       ["https://algoindexer.example.org/v2/transactions/TX";
        "https://node.example.org/v2/transactions/params"])
    /\ confirmed tx = true /\ pending tx = false
    /\ blockHeight tx = Some 100.
Proof.
  destruct (getTx_reports_confirmation algoNetwork algoConfig "TX" tt
              _ tt _ tt _ _ eq_refl eq_refl eq_refl eq_refl)
    as [tx [Hrun [Hpending [Hheight [_ [_ [_ Hconfirmed]]]]]]].
  exists tx. split; [exact Hrun|]. split.
  - apply Hconfirmed. exists 105, 100.
    split; [reflexivity|]. split; [reflexivity|]. cbn. lia.
  - split; [exact Hpending|exact Hheight].
Defined.

(** X9 on an item of three chunks that are all present. *)
Lemma chunked_with_everything_present_witness :
  Async.events (threeChunks completeService)
  = [EvRequest (GetChunkInfo "tx" 2500000)
       (respond 200 "OK" (DataOffsets [0; 1000000; 2000000]));
     EvAwaitAll 0 true;
     EvRequest (PostFinish "tx") (respond 201 "Created" DataNone)].
Proof.
  destruct (chunked_with_everything_present completeService (zeros 2500000)
              "tx" 2500000 1000000 2 tt
              {| status := 200; statusText := "OK";
                 data := DataOffsets [0; 1000000; 2000000] |} tt
              [0; 1000000; 2000000]
              ltac:(lia) ltac:(apply Qle_bool_iff; reflexivity) ltac:(lia)
              eq_refl eq_refl eq_refl)
    as [reply [s2 [o [Hreply Hrun]]]].
  - intros k Hk. change (2500000 / 1000000) with 2 in Hk.
    assert (k = 0 \/ k = 1 \/ k = 2) as [-> | [-> | ->]] by lia; cbn; auto.
  - unfold threeChunks. rewrite Hrun. cbn in Hreply.
    injection Hreply as <- _. reflexivity.
Defined.

(** X10 on an item of three chunks and a service that accepts them. *)
Lemma chunked_finalizes_once_at_the_end_witness :
  exists pre n,
    Async.events (threeChunks healthyService)
    = pre ++ [EvAwaitAll n true;
              EvRequest (PostFinish "tx") (respond 201 "Created" DataNone)]
    /\ inFlight (pre ++ [EvAwaitAll n true]) = 0%nat.
Proof.
  assert (Async.events (threeChunks healthyService)
          = removelast (Async.events (threeChunks healthyService))
            ++ EvRequest (PostFinish "tx") (respond 201 "Created" DataNone)
               :: []) as Hsplit
    by (vm_compute; reflexivity).
  destruct (chunked_finalizes_once_at_the_end healthyService (zeros 2500000)
              "tx" 2500000 1000000 2 tt _ "tx" _ [] Hsplit)
    as [_ [_ [_ [[before [n Hpre]] Hflight]]]].
  exists before, n. split.
  - rewrite Hsplit at 1. rewrite Hpre, <- app_assoc. reflexivity.
  - rewrite <- Hpre. exact Hflight.
Defined.

(** X11 on a forced chunked upload of an item that is stored. *)
Lemma stored_item_is_not_uploaded_again_witness :
  transactionUploader unit storedService true (signAs "tx" (zeros 1000)) tt
  = (Resolved {| status := 201; statusText := "Created";
                 data := DataId "tx" |}, tt,
     [EvRequest (GetChunkInfo "tx" 1000)
        (respond 201 "Created" DataNone)]).
Proof.
  exact (stored_item_is_not_uploaded_again storedService true
           (signAs "tx" (zeros 1000)) tt
           {| status := 201; statusText := "Created"; data := DataNone |} tt
           (or_introl eq_refl) eq_refl eq_refl).
Defined.

(** X13 on a service whose first two uploads fail. *)
Lemma chunk_upload_recovers_from_failures_witness :
  exists l,
    promiseFactory nat flakyService "tx" (zeros 1000000) 0 0%nat
    = (Resolved (0, {| status := 201; statusText := "Created";
                       data := DataNone |}), 3%nat, l)
    /\ chunkAttempts 0 l = 3%nat.
Proof.
  refine (chunk_upload_recovers_from_failures flakyService "tx"
            (zeros 1000000) 0
            [{| message := "socket hang up" |};
             {| message := "socket hang up" |}] 0%nat _ 3%nat _ _).
  - apply (throwsFirst _ _ _ _ 0%nat 1%nat); [reflexivity|].
    apply (throwsFirst _ _ _ _ 1%nat 2%nat); [reflexivity|].
    apply returnsAtOnce. reflexivity.
  - cbn. lia.
Defined.

(** X14 on a service whose first two uploads fail. *)
Lemma item_upload_recovers_from_failures_witness :
  exists l,
    processTask nat flakyService false (signAs "tx") bufferOfString unit 5
      None None (ItemData (signAs "tx" (zeros 1000))) 1 0%nat
    = (Resolved undefined, 3%nat, l)
    /\ directPosts l = 3%nat.
Proof.
  refine (item_upload_recovers_from_failures flakyService (signAs "tx")
            bufferOfString unit 5 None (signAs "tx" (zeros 1000)) 1
            [{| message := "socket hang up" |};
             {| message := "socket hang up" |}] 0%nat
            {| status := 201; statusText := "Created"; data := DataNone |}
            3%nat _ _ _ _ _ _).
  - cbn. lia.
  - reflexivity.
  - repeat constructor.
  - apply (throwsFirst _ _ _ _ 0%nat 1%nat); [reflexivity|].
    apply (throwsFirst _ _ _ _ 1%nat 2%nat); [reflexivity|].
    apply returnsAtOnce. reflexivity.
  - cbn. lia.
  - cbn. lia.
Defined.

(** X15 on the item of index 0 with concurrency 5. *)
Lemma missing_logFunction_uploads_the_item_four_times_witness :
  exists s' l,
    processTask unit healthyService false (signAs "tx") bufferOfString unit 5
      None None (ItemData (signAs "tx" (zeros 1000))) 0 tt
    = (Rejected {| message := "logFunction is not a function" |}, s', l)
    /\ directPosts l = 4%nat
    /\ backoffs l = [1000; 2000; 4000].
Proof.
  refine (missing_logFunction_uploads_the_item_four_times healthyService
            (signAs "tx") bufferOfString unit 5 None
            (signAs "tx" (zeros 1000)) 0 tt _ _ _).
  - cbn. lia.
  - reflexivity.
  - intros s0. eexists _, _. split; [reflexivity|]. cbn. lia.
Defined.

(** X1 on an index file that is no item of the site. *)
Lemma generateManifest_rejects_missing_index_witness :
  generateManifest siteItems (Some "about.html")
  = Rejected {| message := "Unable to access item: about.html" |}.
Proof.
  apply (proj1 (proj2 (generateManifest_rejects_missing_index siteItems
                         (Some "about.html"))) "about.html" eq_refl).
  - discriminate.
  - reflexivity.
Defined.

(** X5 on the provider URL of example.org. *)
Lemma algorand_endpoints_keep_the_provider_url_witness :
  (sliceTo 8 (apiURL algoConfig) ++ sliceFrom 13 (apiURL algoConfig))%string
  = "https://example.org".
Proof.
  apply (proj1 (proj2 (proj2 (algorand_endpoints_keep_the_provider_url
                                "https://example.org" None)))).
  cbn. lia.
Defined.

(** X7 on a transaction the indexer does not know. *)
Lemma getTx_failures_witness :
  getTx unit algoNetwork algoConfig "NONE" tt
  = (Rejected {| message := "Request failed with status code 404" |}, tt,
     ["https://algoindexer.example.org/v2/transactions/NONE"]).
Proof.
  exact (proj1 (getTx_failures algoNetwork algoConfig "NONE" tt) _ tt
           eq_refl).
Defined.

(** X16 on three short items with concurrency 2. *)
Lemma concurrentUploader_settles_in_two_ways_witness :
  exists br,
    Async.outcome (smallBatch 2) = Resolved br
    /\ (List.length (errors br) + List.length (results br))%nat = 3%nat.
Proof.
  eexists. split; [vm_compute; reflexivity|].
  apply (proj1 (concurrentUploader_settles_in_two_ways healthyService false
                  (signAs "tx") bufferOfString unit
                  [ItemString "a"; ItemString "b"; ItemString "c"] 2 None
                  None tt) _).
  vm_compute. reflexivity.
Defined.

(** X17 after [useChunking] was assigned a string. *)
Lemma useChunking_decides_the_path_witness :
  exists reply,
    Async.events
      (uploaderTransactionUploader healthyService
         (setUseChunking (JsString "yes") newUploaderFields)
         (signAs "tx" (zeros 1000)) tt)
    = [EvRequest (PostTx (zeros 1000)) reply].
Proof.
  apply (proj2 (proj2 (proj2 (useChunking_decides_the_path healthyService
                                JsNull newUploaderFields
                                (signAs "tx" (zeros 1000)) tt)))).
  - cbn. lia.
  - intros b. discriminate.
Defined.
